(** * Retry policy, posting-time allocator and schedule statistics

    A shallow embedding of [utils/retry.ts] (backoff calculator, retry
    executors) and of [services/scheduler.ts] (content formatter, time-slot
    allocator, schedule statistics), with the properties stated about them.

    Modelling conventions.
    - A JavaScript string is the list of its UTF-16 code units; [length] is
      the list length, [substring] is [firstn]/[skipn].
    - A JavaScript number that the code uses as a count or as an instant
      (milliseconds since the epoch) is a [Z].  The backoff calculator is
      computed over exact rationals [Q]: the language does not pin
      [Math.pow] down to the bit, so what is stated about delays are bounds
      that rounding to the nearest double preserves, for configurations on
      which the bounds themselves are computed exactly.  The average gap of
      the schedule statistics is computed on binary64 values, operation by
      operation as the code does.
    - A [Date] is its [getTime()] value and the local time zone is UTC, as
      on the Workers runtime the code is deployed on: no daylight saving.
    - Asynchronous code is run to completion: a promise is the outcome it
      settles with, effects are threaded through an explicit world. *)

From Stdlib Require Import ZArith QArith Qround Qminmax Qpower List Lia Lqa Bool
  Ascii String DecimalString Sorted Permutation.
From Stdlib Require Import PrimFloat Uint63.
Import ListNotations.

Local Open Scope Z_scope.

(** ** JavaScript strings *)

Module JsString.

Definition codeunit := N.
Definition jsstring := list codeunit.

(** A string literal of the source. *)
Definition lit (s : string) : jsstring :=
  map N_of_ascii (list_ascii_of_string s).

(** [`${n}`] for an integer [n]. *)
Definition ofInt (n : Z) : jsstring :=
  lit (NilZero.string_of_int (Z.to_int n)).

(** The literal of two line feeds. *)
Definition blankLine : jsstring := [10%N; 10%N].

(** [parts.join(sep)] *)
Fixpoint join (sep : jsstring) (parts : list jsstring) : jsstring :=
  match parts with
  | [] => []
  | [p] => p
  | p :: rest => p ++ sep ++ join sep rest
  end.

(** [s.substring(0, n)] for [0 <= n]. *)
Definition substring0 (n : nat) (s : jsstring) : jsstring := firstn n s.

(** Canonicalisation of a code unit under the [i] flag of a regular
    expression without the [u] flag: upper-casing, except that a code unit
    of 128 or more never canonicalises to an ASCII one.  Against the ASCII
    patterns of this program that is ASCII upper-casing. *)
Definition canonicalize (c : codeunit) : codeunit :=
  if ((97 <=? c) && (c <=? 122))%N then (c - 32)%N else c.

Fixpoint matchesAt (pattern s : jsstring) : bool :=
  match pattern, s with
  | [], _ => true
  | _ :: _, [] => false
  | p :: pattern', c :: s' =>
      (canonicalize p =? canonicalize c)%N && matchesAt pattern' s'
  end.

(** [/pattern/i.test(s)] for a pattern made of literal characters. *)
Fixpoint testIgnoreCase (pattern s : jsstring) : bool :=
  matchesAt pattern s ||
  match s with
  | [] => false
  | _ :: s' => testIgnoreCase pattern s'
  end.

Fixpoint startsWith (prefix s : jsstring) : bool :=
  match prefix, s with
  | [], _ => true
  | _ :: _, [] => false
  | p :: prefix', c :: s' => (p =? c)%N && startsWith prefix' s'
  end.

(** [s.includes(needle)] *)
Fixpoint includes (needle s : jsstring) : bool :=
  startsWith needle s ||
  match s with
  | [] => false
  | _ :: s' => includes needle s'
  end.

End JsString.

Import JsString.

(** ** Numbers and dates *)

Module Js.

(** [Math.round]: the nearest integer, halves towards plus infinity. *)
Definition mathRound (x : Q) : Z := Qfloor (x + (1 # 2))%Q.

Definition msPerHour : Z := 1000 * 60 * 60.
Definition msPerDay : Z := 24 * msPerHour.

(** [date.getHours()] *)
Definition getHours (t : Z) : Z := (t / msPerHour) mod 24.

(** [date.getDay()]: 0 is Sunday; 1 January 1970 was a Thursday. *)
Definition getDay (t : Z) : Z := (t / msPerDay + 4) mod 7.

(** Midnight of the calendar day of [t]. *)
Definition startOfDay (t : Z) : Z := t - t mod msPerDay.

(** [date.setHours(h, 0, 0, 0)]; an hour outside 0..23 rolls over. *)
Definition setHours0 (t h : Z) : Z := startOfDay t + h * msPerHour.

(** [date.setDate(date.getDate() + delta)]: the calendar day moves by
    [delta], the time of day stays. *)
Definition shiftDate (t delta : Z) : Z := t + delta * msPerDay.

(** date-fns [addHours], [addDays]. *)
Definition addHours (t amount : Z) : Z := t + amount * msPerHour.
Definition addDays (t amount : Z) : Z := shiftDate t amount.

(** [format(date, 'yyyy-MM-dd')], up to an injective renaming of days. *)
Definition formatDay (t : Z) : Z := t / msPerDay.

(** [array.sort((a, b) => a - b)] on numbers. *)
Fixpoint insertSorted (x : Z) (l : list Z) : list Z :=
  match l with
  | [] => [x]
  | y :: l' => if x <=? y then x :: l else y :: insertSorted x l'
  end.

Definition sortAscending (l : list Z) : list Z :=
  fold_right insertSorted [] l.

End Js.

Import Js.

(** ** Promises, exceptions and effects *)

Module Effects.

(** An [Error] object, as far as the code reads it. *)
Record Error := { name : jsstring; message : jsstring }.

(** [new Error(msg)] *)
Definition newError (msg : jsstring) : Error :=
  {| name := lit "Error"; message := msg |}.

(** What a [throw] carries: an [Error], or any other value, of which the
    code only takes [String(value)]. *)
Inductive Thrown :=
| ThrownError (e : Error)
| ThrownValue (rendering : jsstring).

(** How a promise settles, or a block of statements completes. *)
Inductive Outcome (A : Type) :=
| Fulfilled (value : A)
| Rejected (reason : Thrown).
Arguments Fulfilled {A} value.
Arguments Rejected {A} reason.

(** A computation over a world [W] that returns or throws. *)
Definition Prog (W A : Type) : Type := W -> Outcome A * W.

Definition ret {W A} (a : A) : Prog W A := fun w => (Fulfilled a, w).

Definition throw {W A} (t : Thrown) : Prog W A := fun w => (Rejected t, w).

Definition bind {W A B} (m : Prog W A) (k : A -> Prog W B) : Prog W B :=
  fun w =>
    match m w with
    | (Fulfilled a, w') => k a w'
    | (Rejected t, w') => (Rejected t, w')
    end.

(** [try { m } catch (error) { handler error }] *)
Definition tryCatch {W A} (m : Prog W A) (handler : Thrown -> Prog W A)
    : Prog W A :=
  fun w =>
    match m w with
    | (Fulfilled a, w') => (Fulfilled a, w')
    | (Rejected t, w') => handler t w'
    end.

Module Notations.
Notation "x <- m ;; k" := (bind m (fun x => k))
  (at level 61, m at next level, right associativity).
Notation "m ;;; k" := (bind m (fun _ => k))
  (at level 61, right associativity).
End Notations.

End Effects.

Import Effects.
Import Effects.Notations.

(** ** utils/retry.ts *)

Module Retry.

Record RetryConfig := {
  maxAttempts : Z;
  baseDelay : Q;
  maxDelay : Q;
  backoffFactor : Q
}.

Definition DEFAULT_RETRY_CONFIG : RetryConfig :=
  {| maxAttempts := 3; baseDelay := 1000; maxDelay := 30000; backoffFactor := 2 |}.

Definition API_RETRY_CONFIG : RetryConfig :=
  {| maxAttempts := 3; baseDelay := 2000; maxDelay := 10000; backoffFactor := 3 # 2 |}.

Definition DB_RETRY_CONFIG : RetryConfig :=
  {| maxAttempts := 5; baseDelay := 500; maxDelay := 5000; backoffFactor := 2 |}.

Definition IMAGE_GENERATION_RETRY_CONFIG : RetryConfig :=
  {| maxAttempts := 2; baseDelay := 5000; maxDelay := 15000; backoffFactor := 2 |}.

(** [error instanceof Error ? error : new Error(String(error))] *)
Definition toError (t : Thrown) : Error :=
  match t with
  | ThrownError e => e
  | ThrownValue s => newError s
  end.

(** The body of [calculateDelay] once [Math.random()] has returned [u]. *)
Definition delayFromDraw (u : Q) (attempt : Z) (config : RetryConfig) : Z :=
  let exponentialDelay :=
    Qmin (baseDelay config * Qpower (backoffFactor config) (attempt - 1))%Q
         (maxDelay config) in
  let jitter := (exponentialDelay * (25 # 100) * (u * 2 - 1))%Q in
  Z.max 0 (mathRound (exponentialDelay + jitter)).

(** The two intermediate values of [calculateDelay], named:
    [min(baseDelay * backoffFactor^(attempt-1), maxDelay)] and the jitter
    for a draw [u] of [Math.random()], where [2u - 1] is the uniform draw
    over [-1, 1). *)
Definition exponentialDelay (attempt : Z) (config : RetryConfig) : Q :=
  Qmin (baseDelay config * Qpower (backoffFactor config) (attempt - 1))%Q
       (maxDelay config).

Definition jitter (u : Q) (attempt : Z) (config : RetryConfig) : Q :=
  (exponentialDelay attempt config * (25 # 100) * (u * 2 - 1))%Q.

Definition retryablePatterns : list jsstring :=
  [ lit "network"; lit "timeout"; lit "rate limit"; lit "503"; lit "502";
    lit "504"; lit "connection"; lit "temporary" ].

Definition isRetryableError (error : Error) : bool :=
  existsb (fun pattern =>
             testIgnoreCase pattern (message error)
             || testIgnoreCase pattern (name error))
          retryablePatterns.

(** The world of an executor.  The operation under retry is a closure with
    a private state of type [St]. *)
Record World (St : Type) := {
  opState : St;
  callCount : nat;          (* invocations of the operation so far *)
  drawCount : nat;          (* draws taken from [Math.random] *)
  warnings : list jsstring; (* [console.warn] lines, latest first *)
  sleeps : list Z           (* [setTimeout] delays awaited, latest first *)
}.
Arguments opState {St} w.
Arguments callCount {St} w.
Arguments drawCount {St} w.
Arguments warnings {St} w.
Arguments sleeps {St} w.

(** The world after one more invocation of the operation, which left the
    state [s']. *)
Definition invoked {St : Type} (s' : St) (w : World St) : World St :=
  {| opState := s'; callCount := S (callCount w); drawCount := drawCount w;
     warnings := warnings w; sleeps := sleeps w |}.

(** How one round of the [for] loop of an executor ends. *)
Inductive Step (T : Type) :=
| StepReturn (value : T)        (* [return await operation()] *)
| StepBreak (lastError : Error) (* [break] *)
| StepNext (lastError : Error). (* end of the [catch] block: [attempt++] *)
Arguments StepReturn {T} value.
Arguments StepBreak {T} lastError.
Arguments StepNext {T} lastError.

(** How the [for] loop is left. *)
Inductive LoopExit (T : Type) :=
| Returned (value : T)
| LeftLoop (lastError : option Error). (* [break], or the test failed *)
Arguments Returned {T} value.
Arguments LeftLoop {T} lastError.

Section Executor.

Variable T : Type.
Variable St : Type.

(** One invocation of the operation settles and leaves a new state. *)
Variable operation : St -> Outcome T * St.

(** [Math.random]: the sequence of its draws. *)
Variable random : nat -> Q.

Abbreviation M := (Prog (World St)).

(** [await operation()] *)
Definition callOperation : M T :=
  fun w =>
    let (r, s') := operation (opState w) in
    (r, {| opState := s'; callCount := S (callCount w);
           drawCount := drawCount w; warnings := warnings w;
           sleeps := sleeps w |}).

Definition mathRandom : M Q :=
  fun w =>
    (Fulfilled (random (drawCount w)),
     {| opState := opState w; callCount := callCount w;
        drawCount := S (drawCount w); warnings := warnings w;
        sleeps := sleeps w |}).

Definition consoleWarn (line : jsstring) : M unit :=
  fun w =>
    (Fulfilled tt,
     {| opState := opState w; callCount := callCount w;
        drawCount := drawCount w; warnings := line :: warnings w;
        sleeps := sleeps w |}).

(** [await new Promise(resolve => setTimeout(resolve, delay))] *)
Definition sleep (delay : Z) : M unit :=
  fun w =>
    (Fulfilled tt,
     {| opState := opState w; callCount := callCount w;
        drawCount := drawCount w; warnings := warnings w;
        sleeps := delay :: sleeps w |}).

Definition calculateDelay (attempt : Z) (config : RetryConfig) : M Z :=
  u <- mathRandom ;;
  ret (delayFromDraw u attempt config).

(** The [for] loop of [withRetry], from [attempt] on.  [None]: the fuel ran
    out before the loop was left. *)
Fixpoint withRetryLoop (config : RetryConfig) (context : jsstring)
    (fuel : nat) (attempt : Z) (lastError : option Error)
    : M (option (LoopExit T)) :=
  match fuel with
  | O => ret None
  | S fuel' =>
      if attempt <=? maxAttempts config then
        step <- tryCatch
          (v <- callOperation ;; ret (StepReturn v))
          (fun error =>
             let lastError := toError error in
             if attempt =? maxAttempts config then ret (StepBreak lastError)
             else
               delay <- calculateDelay attempt config ;;
               consoleWarn
                 (context ++ lit " failed on attempt " ++ ofInt attempt
                  ++ lit "/" ++ ofInt (maxAttempts config) ++ lit ". "
                  ++ lit "Retrying in " ++ ofInt delay ++ lit "ms. Error: "
                  ++ message lastError) ;;;
               sleep delay ;;;
               ret (StepNext lastError)) ;;
        match step with
        | StepReturn v => ret (Some (Returned v))
        | StepBreak e => ret (Some (LeftLoop (Some e)))
        | StepNext e =>
            withRetryLoop config context fuel' (attempt + 1) (Some e)
        end
      else ret (Some (LeftLoop lastError))
  end.

(** Reading [.message] of [undefined]. *)
Definition undefinedMessageError : Error :=
  {| name := lit "TypeError";
     message := lit "Cannot read properties of undefined (reading 'message')" |}.

Definition exhaustedMessage (config : RetryConfig) (context : jsstring)
    (lastError : Error) : jsstring :=
  context ++ lit " failed after " ++ ofInt (maxAttempts config)
  ++ lit " attempts. " ++ lit "Last error: " ++ message lastError.

Definition withRetry (config : RetryConfig) (context : jsstring)
    : M (option T) :=
  exit <- withRetryLoop config context
            (S (Z.to_nat (maxAttempts config))) 1 None ;;
  match exit with
  | None => ret None
  | Some (Returned v) => ret (Some v)
  | Some (LeftLoop (Some lastError)) =>
      throw (ThrownError (newError (exhaustedMessage config context lastError)))
  | Some (LeftLoop None) => throw (ThrownError undefinedMessageError)
  end.

(** The [for] loop of [withConditionalRetry]. *)
Fixpoint withConditionalRetryLoop (config : RetryConfig) (context : jsstring)
    (fuel : nat) (attempt : Z) (lastError : option Error)
    : M (option (LoopExit T)) :=
  match fuel with
  | O => ret None
  | S fuel' =>
      if attempt <=? maxAttempts config then
        step <- tryCatch
          (v <- callOperation ;; ret (StepReturn v))
          (fun error =>
             let lastError := toError error in
             if negb (isRetryableError lastError)
                || (attempt =? maxAttempts config)
             then ret (StepBreak lastError)
             else
               delay <- calculateDelay attempt config ;;
               consoleWarn
                 (context ++ lit " failed on attempt " ++ ofInt attempt
                  ++ lit "/" ++ ofInt (maxAttempts config) ++ lit " "
                  ++ lit "with retryable error. Retrying in " ++ ofInt delay
                  ++ lit "ms. Error: " ++ message lastError) ;;;
               sleep delay ;;;
               ret (StepNext lastError)) ;;
        match step with
        | StepReturn v => ret (Some (Returned v))
        | StepBreak e => ret (Some (LeftLoop (Some e)))
        | StepNext e =>
            withConditionalRetryLoop config context fuel' (attempt + 1)
              (Some e)
        end
      else ret (Some (LeftLoop lastError))
  end.

Definition withConditionalRetry (config : RetryConfig) (context : jsstring)
    : M (option T) :=
  exit <- withConditionalRetryLoop config context
            (S (Z.to_nat (maxAttempts config))) 1 None ;;
  match exit with
  | None => ret None
  | Some (Returned v) => ret (Some v)
  | Some (LeftLoop (Some lastError)) => throw (ThrownError lastError)
  | Some (LeftLoop None) => throw (ThrownValue (lit "undefined"))
  end.

(** The state of the operation after [n] invocations from [s], and what
    the invocation number [n] (counted from 0) settles with. *)
Fixpoint stateAfter (n : nat) (s : St) : St :=
  match n with
  | O => s
  | S n' => stateAfter n' (snd (operation s))
  end.

Definition outcomeAt (n : nat) (s : St) : Outcome T :=
  fst (operation (stateAfter n s)).

End Executor.

End Retry.

(** ** services/scheduler.ts *)

Module Scheduler.

Record OptimizedContent := {
  title : jsstring;
  description : jsstring;
  hashtags : list jsstring
}.

(** A row of [generated_pins], as far as the scheduler reads it.
    [scheduled_for] is the instant its date string denotes; [None] stands
    for an absent or empty string. *)
Record GeneratedPin := {
  pinId : Z;
  scheduled_for : option Z
}.

(** The fields of [PostizScheduler].  The constructor always builds a
    non-empty [optimalHours] (the default list, or the pieces of a
    non-empty [POSTING_HOURS]): it is kept as its first entry and the
    rest. *)
Record PostizScheduler := {
  firstOptimalHour : Z;
  laterOptimalHours : list Z;
  postsPerDay : Z;
  minGapMinutes : Z
}.

Definition optimalHours (this : PostizScheduler) : list Z :=
  firstOptimalHour this :: laterOptimalHours this.

(** [new PostizScheduler(env)] with [POSTING_HOURS] and [POSTS_PER_DAY]
    unset. *)
Definition defaultScheduler : PostizScheduler :=
  {| firstOptimalHour := 9; laterOptimalHours := [12; 15; 18; 21];
     postsPerDay := 5; minGapMinutes := 60 |}.

Definition formatContentForPinterest (content : OptimizedContent) : jsstring :=
  let formattedContent :=
    title content ++ blankLine ++ description content in
  let formattedContent :=
    if (0 <? List.length (hashtags content))%nat then
      let hashtagString :=
        join (lit " ")
             (map (fun tag => lit "#" ++ tag) (firstn 30 (hashtags content))) in
      formattedContent ++ blankLine ++ hashtagString
    else formattedContent in
  if (500 <? List.length formattedContent)%nat then
    substring0 497 formattedContent ++ lit "..."
  else formattedContent.

Definition getNextOptimalTime (this : PostizScheduler) (from : Z) : Z :=
  let target := from in
  let currentHour := getHours target in
  let nextHourToday := find (fun hour => hour >? currentHour) (optimalHours this) in
  match nextHourToday with
  | Some hour =>
      if hour =? 0 then   (* a falsy number *)
        setHours0 (addDays target 1) (firstOptimalHour this)
      else setHours0 target hour
  | None => setHours0 (addDays target 1) (firstOptimalHour this)
  end.

(** The filter callback of [isTimeSlotAvailable]. *)
Definition inGap (gapStart gapEnd : Z) (pin : GeneratedPin) : bool :=
  match scheduled_for pin with
  | None => false
  | Some scheduledTime =>
      (gapStart <=? scheduledTime) && (scheduledTime <=? gapEnd)
  end.

Record ScheduleStats := {
  totalScheduled : Z;
  postsToday : Z;
  postsThisWeek : Z;
  nextAvailableSlot : Z;
  averageGapHours : Q
}.

(** The [for] loop over [sortedPosts] from index 1: [previous] is
    [sortedPosts[i - 1]], [rest] starts at [sortedPosts[i]]. *)
Fixpoint gapLoop (previous : Z) (rest : list Z) (totalGapHours : Q)
    (gapCount : Z) : Q * Z :=
  match rest with
  | [] => (totalGapHours, gapCount)
  | current :: rest' =>
      let gap := (inject_Z (current - previous) / inject_Z (1000 * 60 * 60))%Q in
      gapLoop current rest' (totalGapHours + gap)%Q (gapCount + 1)
  end.

Definition gapTotals (sortedPosts : list Z) : Q * Z :=
  match sortedPosts with
  | [] => (0%Q, 0)
  | first :: rest => gapLoop first rest 0%Q 0
  end.

(** [scheduledPins.filter(pin => pin.scheduled_for)
       .map(pin => new Date(pin.scheduled_for!))] *)
Definition scheduledInstants (scheduledPins : list GeneratedPin) : list Z :=
  flat_map (fun pin => match scheduled_for pin with
                       | Some t => [t]
                       | None => []
                       end) scheduledPins.

(** The average-gap block of [getScheduleStats], rounding included. *)
Definition averageGap (scheduledPins : list GeneratedPin) : Q :=
  let sortedPosts := sortAscending (scheduledInstants scheduledPins) in
  let (totalGapHours, gapCount) := gapTotals sortedPosts in
  let averageGapHours :=
    if gapCount >? 0 then (totalGapHours / inject_Z gapCount)%Q else 0%Q in
  (inject_Z (mathRound (averageGapHours * 100)) / 100)%Q.

(** [thisWeekStart] of [getScheduleStats]. *)
Definition weekStart (now : Z) : Z := shiftDate now (- getDay now).

Definition countToday (now : Z) (scheduledPins : list GeneratedPin) : Z :=
  let today := formatDay now in
  Z.of_nat (List.length (filter (fun pin =>
    match scheduled_for pin with
    | Some t => formatDay t =? today
    | None => false
    end) scheduledPins)).

Definition countThisWeek (now : Z) (scheduledPins : list GeneratedPin) : Z :=
  let thisWeekStart := weekStart now in
  Z.of_nat (List.length (filter (fun pin =>
    match scheduled_for pin with
    | Some t => t >=? thisWeekStart
    | None => false
    end) scheduledPins)).

(** The world of the scheduler: the storage layer and the clock are one
    abstract environment. *)
Record World (Env : Type) := {
  env : Env;
  lookupCount : nat;          (* calls of [getScheduledPins] so far *)
  errorLog : list Thrown      (* what [console.error] was given *)
}.
Arguments env {Env} w.
Arguments lookupCount {Env} w.
Arguments errorLog {Env} w.

Section Allocator.

Variable Env : Type.

(** [this.db.getScheduledPins(limit)]: settles with rows or rejects, and
    may change the environment. *)
Variable dbGetScheduledPins : Z -> Env -> Outcome (list GeneratedPin) * Env.

(** The clock read by [new Date()]. *)
Variable clock : Env -> Z.

Abbreviation M := (Prog (World Env)).

Definition getScheduledPins (limit : Z) : M (list GeneratedPin) :=
  fun w =>
    let (r, e') := dbGetScheduledPins limit (env w) in
    (r, {| env := e'; lookupCount := S (lookupCount w);
           errorLog := errorLog w |}).

Definition newDate : M Z := fun w => (Fulfilled (clock (env w)), w).

Definition consoleError (error : Thrown) : M unit :=
  fun w =>
    (Fulfilled tt,
     {| env := env w; lookupCount := lookupCount w;
        errorLog := error :: errorLog w |}).

Definition isTimeSlotAvailable (this : PostizScheduler) (targetTime : Z)
    : M bool :=
  let gapStart := addHours targetTime (-1) in
  let gapEnd := addHours targetTime 1 in
  tryCatch
    (conflictingPosts <- getScheduledPins 100 ;;
     let conflicts := filter (inGap gapStart gapEnd) conflictingPosts in
     ret (List.length conflicts =? 0)%nat)
    (fun error => consoleError error ;;; ret false).

(** The [while] loop of [findOptimalPostingTime].  [Some t]: the loop
    returned [t]; [None]: the loop was left with its test false. The outer
    [option] is [None] when the fuel ran out. *)
Fixpoint searchLoop (this : PostizScheduler) (fuel : nat) (attempts : Z)
    (targetDate : Z) : M (option (option Z)) :=
  match fuel with
  | O => ret None
  | S fuel' =>
      if attempts <? 50 then
        isSlotAvailable <- isTimeSlotAvailable this targetDate ;;
        if isSlotAvailable : bool then ret (Some (Some targetDate))
        else
          searchLoop this fuel' (attempts + 1)
            (getNextOptimalTime this (addHours targetDate 1))
      else ret (Some None)
  end.

Definition findOptimalPostingTime (this : PostizScheduler) : M (option Z) :=
  now <- newDate ;;
  let targetDate := getNextOptimalTime this now in
  found <- searchLoop this 51 0 targetDate ;;
  match found with
  | None => ret None
  | Some (Some t) => ret (Some t)
  | Some None =>
      let tomorrow := addDays now 1 in
      ret (Some (setHours0 tomorrow (firstOptimalHour this)))
  end.

Definition getScheduleStats (this : PostizScheduler)
    : M (option ScheduleStats) :=
  tryCatch
    (scheduledPins <- getScheduledPins 200 ;;
     now <- newDate ;;
     slot <- findOptimalPostingTime this ;;
     match slot with
     | None => ret None
     | Some nextAvailableSlot =>
         ret (Some {| totalScheduled := Z.of_nat (List.length scheduledPins);
                      postsToday := countToday now scheduledPins;
                      postsThisWeek := countThisWeek now scheduledPins;
                      nextAvailableSlot := nextAvailableSlot;
                      averageGapHours := averageGap scheduledPins |})
     end)
    (fun error =>
       consoleError error ;;;
       now <- newDate ;;
       ret (Some {| totalScheduled := 0; postsToday := 0; postsThisWeek := 0;
                    nextAvailableSlot := now; averageGapHours := 0 |})).

End Allocator.

End Scheduler.

(** ** Notions the statements about the scheduler use *)

Module SchedulerSpec.

Import Scheduler.

(** The instant [hour:minute:00.000] of the day number [day] (days counted
    from 1 January 1970). *)
Definition atTime (day hour minute : Z) : Z :=
  day * msPerDay + hour * msPerHour + minute * 60000.

(** An instant at an optimal hour with minutes, seconds and milliseconds
    zeroed. *)
Definition isOptimalSlot (this : PostizScheduler) (s : Z) : Prop :=
  s mod msPerHour = 0 /\ In (getHours s) (optimalHours this).

(** The sum of the differences of consecutive instants, in hours. *)
Fixpoint consecutiveGapHours (instants : list Z) : Q :=
  match instants with
  | a :: (b :: _) as rest =>
      (inject_Z (b - a) / inject_Z msPerHour + consecutiveGapHours rest)%Q
  | _ => 0%Q
  end.

(** The mean of the consecutive differences; 0 with fewer than two
    instants. *)
Definition meanGapHours (instants : list Z) : Q :=
  if (List.length instants <? 2)%nat then 0%Q
  else (consecutiveGapHours instants
        / inject_Z (Z.of_nat (List.length instants - 1)))%Q.

(** Rounding to two decimals. *)
Definition roundTwoDecimals (x : Q) : Q :=
  (inject_Z (mathRound (x * 100)) / 100)%Q.

(** A scheduler built from [POSTING_HOURS = "21,9"]. *)
Definition eveningFirst : PostizScheduler :=
  {| firstOptimalHour := 21; laterOptimalHours := [9];
     postsPerDay := 5; minGapMinutes := 60 |}.

(** The same scheduler with another [minGapMinutes]. *)
Definition withMinGap (this : PostizScheduler) (gap : Z) : PostizScheduler :=
  {| firstOptimalHour := firstOptimalHour this;
     laterOptimalHours := laterOptimalHours this;
     postsPerDay := postsPerDay this;
     minGapMinutes := gap |}.

(** Pins scheduled at the given instants. *)
Definition pinsAt (instants : list Z) : list GeneratedPin :=
  map (fun t => {| pinId := 0; scheduled_for := Some t |}) instants.

(** A storage layer that always answers with the same rows, one that
    always fails, and a frozen clock: the environment is the clock's
    reading. *)
Definition dbReturning (pins : list GeneratedPin) (limit : Z) (e : Z)
    : Outcome (list GeneratedPin) * Z :=
  (Fulfilled pins, e).

Definition dbFailing (limit : Z) (e : Z) : Outcome (list GeneratedPin) * Z :=
  (Rejected (ThrownError (newError (lit "D1_ERROR: connection lost"))), e).

Definition frozenClock (e : Z) : Z := e.

Definition worldAt (now : Z) : World Z :=
  {| env := now; lookupCount := 0; errorLog := [] |}.

End SchedulerSpec.

(** ** Concrete operations and worlds *)

Module RetryScenarios.

Import Retry.

(** An operation that throws a timeout on its first call and resolves with
    42 afterwards; its private state counts the calls. *)
Definition failsOnce (s : nat) : Outcome Z * nat :=
  (if (s <? 1)%nat then Rejected (ThrownError (newError (lit "timeout")))
   else Fulfilled 42,
   S s).

(** An operation that always throws [new Error(msg)]. *)
Definition alwaysFails (msg : jsstring) (s : nat) : Outcome Z * nat :=
  (Rejected (ThrownError (newError msg)), S s).

(** A jitter source stuck at 0.5: no jitter. *)
Definition noJitter (n : nat) : Q := 1 # 2.

Definition startWorld : World nat :=
  {| opState := 0%nat; callCount := 0; drawCount := 0; warnings := [];
     sleeps := [] |}.



End RetryScenarios.

(** ** Notions the statements about the retry utilities use *)

Module RetrySpec.

Import Retry.

(** [pattern] occurs in [s] up to the case of ASCII letters. *)
Definition occursIgnoringCase (pattern s : jsstring) : Prop :=
  exists before middle rest,
    s = before ++ middle ++ rest
    /\ map canonicalize middle = map canonicalize pattern.

(** Every draw of the jitter source is in [0, 1), as [Math.random]
    promises. *)
Definition unitDraws (random : nat -> Q) : Prop :=
  forall n, (0 <= random n < 1)%Q.

(** The bounds of one backoff sleep under [config]. *)
Definition sleepInBounds (config : RetryConfig) (delay : Z) : Prop :=
  0 <= delay <= mathRound (maxDelay config * (125 # 100)).

End RetrySpec.

(** ** utils/queue.ts: the priority queue *)

Module PriorityQueue.

(** An element of the private array [items].  Priorities are integers. *)
Record Entry (T : Type) := { item : T; priority : Z }.
Arguments item {T} e.
Arguments priority {T} e.

Section Methods.

Variable T : Type.

(** The [for] loop of [enqueue]: [Some items'] when the entry was spliced
    in before the first element of lower priority ([added = true]),
    [None] when the loop ran to the end. *)
Fixpoint spliceBeforeLower (entry : Entry T) (items : list (Entry T))
    : option (list (Entry T)) :=
  match items with
  | [] => None
  | first :: rest =>
      if priority entry >? priority first then Some (entry :: first :: rest)
      else match spliceBeforeLower entry rest with
           | Some rest' => Some (first :: rest')
           | None => None
           end
  end.

Definition enqueue (x : T) (p : Z) (items : list (Entry T))
    : list (Entry T) :=
  let entry := {| item := x; priority := p |} in
  match spliceBeforeLower entry items with
  | Some items' => items'
  | None => items ++ [entry]   (* [this.items.push(entry)] *)
  end.

(** [dequeue]: [this.items.shift()] and the item of what it returned. *)
Definition dequeue (items : list (Entry T)) : option T * list (Entry T) :=
  match items with
  | [] => (None, [])
  | entry :: rest => (Some (item entry), rest)
  end.

Definition peek (items : list (Entry T)) : option T :=
  match items with
  | [] => None
  | entry :: _ => Some (item entry)
  end.

Definition size (items : list (Entry T)) : Z := Z.of_nat (List.length items).

Definition isEmpty (items : list (Entry T)) : bool :=
  (List.length items =? 0)%nat.

Definition clear (items : list (Entry T)) : list (Entry T) := [].

(** The states of [items] a program can reach through the methods, from
    the empty array of a new queue. *)
Inductive reachable : list (Entry T) -> Prop :=
| reachable_new : reachable []
| reachable_enqueue x p items :
    reachable items -> reachable (enqueue x p items)
| reachable_dequeue items :
    reachable items -> reachable (snd (dequeue items))
| reachable_clear items :
    reachable items -> reachable (clear items).

(** [enqueue] of every entry of a list, in the order of the list. *)
Definition enqueueAll (entries items : list (Entry T)) : list (Entry T) :=
  fold_left (fun queue e => enqueue (item e) (priority e) queue) entries items.

(** The entries of priority [p], in their order. *)
Definition ofPriority (p : Z) (items : list (Entry T)) : list (Entry T) :=
  filter (fun e => priority e =? p) items.

(** Higher priorities first. *)
Definition byPriority (items : list (Entry T)) : Prop :=
  StronglySorted (fun a b => priority b <= priority a) items.

End Methods.

Arguments spliceBeforeLower {T}.
Arguments enqueue {T}.
Arguments dequeue {T}.
Arguments peek {T}.
Arguments size {T}.
Arguments isEmpty {T}.
Arguments clear {T}.
Arguments enqueueAll {T}.
Arguments ofPriority {T}.
Arguments reachable {T}.
Arguments byPriority {T}.

End PriorityQueue.

(** ** The [||] operator on optional values *)

Module Falsy.

(** [n || fallback] for an optional number: absent and 0 are falsy. *)
Definition numberOr (n : option Z) (fallback : Z) : Z :=
  match n with
  | Some value => if value =? 0 then fallback else value
  | None => fallback
  end.

(** [s || fallback] for an optional string: absent and empty are falsy. *)
Definition stringOr (s : option jsstring) (fallback : jsstring) : jsstring :=
  match s with
  | Some (c :: rest) => c :: rest
  | _ => fallback
  end.

End Falsy.

Import Falsy.

(** ** utils/queue.ts: messages, the manager and the processor *)

Module MessageQueue.

Import Retry.

Section Messages.

(** The values the code passes on untouched ([content], [params]). *)
Variable Content : Type.
Variable Params : Type.

(** A message whose [data] has the shape its [type] announces, or a
    message of a type the processor does not know. *)
Inductive MessageBody :=
| ProcessUrl (url : jsstring) (urlPriority : option Z)
| GenerateImage (pinId : Z) (content : Content)
    (modelPreference : option jsstring)
| SchedulePin (pinId : Z) (scheduledTime : jsstring)
| Cleanup (operation : jsstring) (params : option Params)
| UnknownType (typeName : jsstring).

(** The optional fields are [None] when absent. *)
Record QueueMessage := {
  body : MessageBody;
  retryCount : option Z;
  maxRetries : option Z;
  createdAt : option jsstring
}.

(** [message.type] *)
Definition messageType (message : QueueMessage) : jsstring :=
  match body message with
  | ProcessUrl _ _ => lit "process_url"
  | GenerateImage _ _ _ => lit "generate_image"
  | SchedulePin _ _ => lit "schedule_pin"
  | Cleanup _ _ => lit "cleanup"
  | UnknownType typeName => typeName
  end.

(** [{ ...message, retryCount: ..., maxRetries: ..., createdAt: ... }] of
    [sendMessage] and [sendBatch]; [now] is [new Date().toISOString()]. *)
Definition withDefaults (now : jsstring) (message : QueueMessage)
    : QueueMessage :=
  {| body := body message;
     retryCount := Some (numberOr (retryCount message) 0);
     maxRetries := Some (numberOr (maxRetries message) 3);
     createdAt := Some (stringOr (createdAt message) now) |}.

(** The delay before a failed message is sent again:
    [Math.min(1000 * Math.pow(2, retryCount), 30000)]. *)
Definition requeueDelay (retryCount : Z) : Q :=
  Qmin (1000 * Qpower 2 retryCount) 30000.

Inductive LogLine :=
| ConsoleLog (line : jsstring)
| ConsoleWarn (line : jsstring)
| ConsoleError (line : jsstring).

(** A call of [setTimeout]: what the callback will send, and after how
    long. *)
Record Timer := { delay : Q; retryMessage : QueueMessage }.

(** The world of the queue code over an environment [Env] that holds the
    state behind the handlers, the queue binding and the clock. *)
Record World (Env : Type) := {
  env : Env;
  console : list LogLine;        (* latest first *)
  timers : list Timer;           (* pending [setTimeout] calls, latest first *)
  dataPoints : list jsstring     (* [indexes[0]] of what ANALYTICS got *)
}.
Arguments env {Env} w.
Arguments console {Env} w.
Arguments timers {Env} w.
Arguments dataPoints {Env} w.

Section Processor.

Variable Env : Type.

(** [this.queue.send] and [this.queue.sendBatch] of the queue binding. *)
Variable queueSend : QueueMessage -> Env -> Outcome unit * Env.
Variable queueSendBatch : list QueueMessage -> Env -> Outcome unit * Env.

(** [new Date().toISOString()] *)
Variable isoNow : Env -> jsstring.

(** [this.handlers]: each handler may be absent. *)
Record Handlers := {
  processUrl : option (jsstring -> Z -> Env -> Outcome unit * Env);
  generateImage :
    option (Z -> Content -> option jsstring -> Env -> Outcome unit * Env);
  schedulePin : option (Z -> jsstring -> Env -> Outcome unit * Env);
  cleanup : option (jsstring -> option Params -> Env -> Outcome unit * Env)
}.

Abbreviation M := (Prog (World Env)).

(** A call into the environment. *)
Definition call {A : Type} (f : Env -> Outcome A * Env) : M A :=
  fun w =>
    let (r, e') := f (env w) in
    (r, {| env := e'; console := console w; timers := timers w;
           dataPoints := dataPoints w |}).

Definition consoleLine (line : LogLine) : M unit :=
  fun w =>
    (Fulfilled tt,
     {| env := env w; console := line :: console w; timers := timers w;
        dataPoints := dataPoints w |}).

Definition setTimeout (timer : Timer) : M unit :=
  fun w =>
    (Fulfilled tt,
     {| env := env w; console := console w; timers := timer :: timers w;
        dataPoints := dataPoints w |}).

Definition writeDataPoint (index : jsstring) : M unit :=
  fun w =>
    (Fulfilled tt,
     {| env := env w; console := console w; timers := timers w;
        dataPoints := index :: dataPoints w |}).

(** [QueueManager.sendMessage] *)
Definition sendMessage (message : QueueMessage) : M unit :=
  fun w =>
    let messageWithDefaults := withDefaults (isoNow (env w)) message in
    call (queueSend messageWithDefaults) w.

(** [QueueManager.sendBatch] *)
Definition sendBatch (messages : list QueueMessage) : M unit :=
  fun w =>
    let messagesWithDefaults :=
      map (withDefaults (isoNow (env w))) messages in
    call (queueSendBatch messagesWithDefaults) w.

(** [queueUrlProcessing(url, priority = 0)] *)
Definition queueUrlProcessing (url : jsstring) (priority : option Z)
    : M unit :=
  let priority := match priority with Some p => p | None => 0 end in
  sendMessage {| body := ProcessUrl url (Some priority);
                 retryCount := None; maxRetries := None;
                 createdAt := None |}.

Definition queueImageGeneration (pinId : Z) (content : Content)
    (modelPreference : option jsstring) : M unit :=
  sendMessage {| body := GenerateImage pinId content modelPreference;
                 retryCount := None; maxRetries := None;
                 createdAt := None |}.

Definition queuePinScheduling (pinId : Z) (scheduledTime : jsstring)
    : M unit :=
  sendMessage {| body := SchedulePin pinId scheduledTime;
                 retryCount := None; maxRetries := None;
                 createdAt := None |}.

Definition queueCleanup (operation : jsstring) (params : option Params)
    : M unit :=
  sendMessage {| body := Cleanup operation params;
                 retryCount := None; maxRetries := None;
                 createdAt := None |}.

(** The [switch] of [processMessage]. *)
Definition dispatch (handlers : Handlers) (message : QueueMessage) : M unit :=
  match body message with
  | ProcessUrl url priority =>
      match processUrl handlers with
      | Some handler => call (handler url (numberOr priority 0))
      | None => ret tt
      end
  | GenerateImage pinId content modelPreference =>
      match generateImage handlers with
      | Some handler => call (handler pinId content modelPreference)
      | None => ret tt
      end
  | SchedulePin pinId scheduledTime =>
      match schedulePin handlers with
      | Some handler => call (handler pinId scheduledTime)
      | None => ret tt
      end
  | Cleanup operation params =>
      match cleanup handlers with
      | Some handler => call (handler operation params)
      | None => ret tt
      end
  | UnknownType typeName =>
      consoleLine (ConsoleWarn (lit "Unknown message type: " ++ typeName))
  end.

(** [QueueProcessor.processMessage]; [hasAnalytics] tells whether
    [env.ANALYTICS] is bound; [retries] and [limit] are the constants
    [retryCount] and [maxRetries] of the [catch] block. *)
Definition processMessage (handlers : Handlers) (hasAnalytics : bool)
    (message : QueueMessage) : M unit :=
  consoleLine (ConsoleLog (lit "Processing queue message: "
                           ++ messageType message)) ;;;
  tryCatch
    (dispatch handlers message ;;;
     consoleLine (ConsoleLog (lit "Successfully processed message: "
                              ++ messageType message)))
    (fun error =>
       let errorMessage := Effects.message (toError error) in
       consoleLine (ConsoleError (lit "Error processing message "
                                  ++ messageType message ++ lit ": "
                                  ++ errorMessage)) ;;;
       let retries := numberOr (retryCount message) 0 in
       let limit := numberOr (maxRetries message) 3 in
       (if retries <? limit then
          consoleLine (ConsoleLog (lit "Retrying message "
                                   ++ messageType message ++ lit " (attempt "
                                   ++ ofInt (retries + 1) ++ lit "/"
                                   ++ ofInt limit ++ lit ")")) ;;;
          let delay := requeueDelay retries in
          setTimeout
            {| delay := delay;
               retryMessage :=
                 {| body := body message;
                    retryCount := Some (retries + 1);
                    maxRetries := maxRetries message;
                    createdAt := createdAt message |} |}
        else
          consoleLine (ConsoleError (lit "Message " ++ messageType message
                                     ++ lit " failed after "
                                     ++ ofInt limit
                                     ++ lit " attempts, giving up")) ;;;
          if hasAnalytics then writeDataPoint (messageType message)
          else ret tt) ;;;
       throw error).

(** The callback given to [setTimeout]: a new manager sends the retry
    message. *)
Definition timerCallback (timer : Timer) : M unit :=
  sendMessage (retryMessage timer).

(** The handler the [switch] selects for a message, applied to the
    arguments it is called with; [None] when that handler is absent or the
    type is unknown. *)
Definition handlerFor (handlers : Handlers) (message : QueueMessage)
    : option (Env -> Outcome unit * Env) :=
  match body message with
  | ProcessUrl url priority =>
      option_map (fun handler => handler url (numberOr priority 0))
                 (processUrl handlers)
  | GenerateImage pinId content modelPreference =>
      option_map (fun handler => handler pinId content modelPreference)
                 (generateImage handlers)
  | SchedulePin pinId scheduledTime =>
      option_map (fun handler => handler pinId scheduledTime)
                 (schedulePin handlers)
  | Cleanup operation params =>
      option_map (fun handler => handler operation params)
                 (cleanup handlers)
  | UnknownType _ => None
  end.

(** How many more times a failing message will be sent again. *)
Definition retriesLeft (message : QueueMessage) : Z :=
  Z.max 0 (numberOr (maxRetries message) 3
           - numberOr (retryCount message) 0).

End Processor.

End Messages.

Arguments ProcessUrl {Content Params}.
Arguments GenerateImage {Content Params}.
Arguments SchedulePin {Content Params}.
Arguments Cleanup {Content Params}.
Arguments UnknownType {Content Params}.
Arguments body {Content Params} q.
Arguments retryCount {Content Params} q.
Arguments maxRetries {Content Params} q.
Arguments createdAt {Content Params} q.
Arguments World : clear implicits.
Arguments env {Content Params Env} w.
Arguments console {Content Params Env} w.
Arguments timers {Content Params Env} w.
Arguments dataPoints {Content Params Env} w.
Arguments delay {Content Params} t.
Arguments retryMessage {Content Params} t.
Arguments messageType {Content Params} message.
Arguments withDefaults {Content Params} now message.
Arguments retriesLeft {Content Params} message.

End MessageQueue.

(** ** Notions the statements about the allocator's search use *)

Module SearchSpec.

Import Scheduler.

(** The candidate the search looks at after [i] unavailable ones,
    starting from [target]. *)
Fixpoint candidateFrom (this : PostizScheduler) (target : Z) (i : nat) : Z :=
  match i with
  | O => target
  | S j => candidateFrom this (getNextOptimalTime this (addHours target 1)) j
  end.

(** The candidates for a clock reading [now]. *)
Definition candidate (this : PostizScheduler) (now : Z) (i : nat) : Z :=
  candidateFrom this (getNextOptimalTime this now) i.

(** No pin lies within one hour of [t]. *)
Definition isFree (pins : list GeneratedPin) (t : Z) : bool :=
  negb (existsb (inGap (t - msPerHour) (t + msPerHour)) pins).

End SearchSpec.

(** ** services/scheduler.ts: posting a pin *)

Module Posting.

Import Retry Scheduler.

(** What [createPostizPost] sends to the Postiz API; [scheduleTime] is the
    instant whose ISO string the code sends. *)
Record PostRequest := {
  requestContent : jsstring;
  scheduleTime : Z;
  mediaUrl : jsstring;
  pinTitle : jsstring;
  pinDescription : jsstring
}.

(** The JSON object of a response, as far as the code reads it:
    [success] is the truthiness of [data.success], [responseError] the
    text of [data.error] when it is truthy. *)
Record ResponseBody := {
  bodySuccess : bool;
  bodyPostId : option jsstring;
  bodyError : option jsstring
}.

(** A [fetch] response; [json] is how [response.json()] settles. *)
Record Response := {
  ok : bool;
  status : Z;
  json : Outcome ResponseBody
}.

(** [{ success, postId?, error? }] *)
Record PostResult := {
  postSuccess : bool;
  postId : option jsstring;
  postError : option jsstring
}.

(** [{ success, scheduledTime?, postizId?, error? }] *)
Record ScheduleResult := {
  success : bool;
  scheduledTime : option Z;
  postizId : option jsstring;
  error : option jsstring
}.

(** The two partial updates [schedulePin] writes to a pin row. *)
Inductive PinPatch :=
| MarkScheduled (postiz_id : option jsstring) (scheduled_for : Z)
| MarkFailed (error_message : jsstring).

(** The world of [schedulePin]: the world of the allocator, the effects
    of the retry executor, and the updates asked of the storage layer. *)
Record World (Env : Type) := {
  sched : Scheduler.World Env;
  fetchCalls : nat;               (* invocations of the retried operation *)
  draws : nat;                    (* draws taken from [Math.random] *)
  retryWarnings : list jsstring;
  retrySleeps : list Z;
  updates : list (Z * PinPatch)   (* [updateGeneratedPin] calls, latest first *)
}.
Arguments sched {Env} w.
Arguments fetchCalls {Env} w.
Arguments draws {Env} w.
Arguments retryWarnings {Env} w.
Arguments retrySleeps {Env} w.
Arguments updates {Env} w.

Section Poster.

Variable Env : Type.
Variable dbGetScheduledPins : Z -> Env -> Outcome (list GeneratedPin) * Env.
Variable clock : Env -> Z.

(** [fetch('https://api.postiz.com/posts', { method: 'POST', ... })] *)
Variable fetchPost : PostRequest -> Env -> Outcome Response * Env.

(** [this.db.updateGeneratedPin(pinId, patch)] *)
Variable dbUpdatePin : Z -> PinPatch -> Env -> Outcome unit * Env.

Variable random : nat -> Q.

Abbreviation M := (Prog (World Env)).

(** A method of the allocator run inside [schedulePin]. *)
Definition liftScheduler {A : Type} (m : Prog (Scheduler.World Env) A) : M A :=
  fun w =>
    let (r, s') := m (sched w) in
    (r, {| sched := s'; fetchCalls := fetchCalls w; draws := draws w;
           retryWarnings := retryWarnings w; retrySleeps := retrySleeps w;
           updates := updates w |}).

(** [withRetry(operation, config, context)] run inside [schedulePin]: the
    operation works on the environment. *)
Definition liftRetry {A : Type} (operation : Env -> Outcome A * Env)
    (config : RetryConfig) (context : jsstring) : M (option A) :=
  fun w =>
    let (r, rw) :=
      withRetry A Env operation random config context
        {| opState := env (sched w); callCount := fetchCalls w;
           drawCount := draws w; warnings := retryWarnings w;
           sleeps := retrySleeps w |} in
    (r, {| sched := {| env := opState rw;
                       lookupCount := lookupCount (sched w);
                       errorLog := errorLog (sched w) |};
           fetchCalls := callCount rw; draws := drawCount rw;
           retryWarnings := warnings rw; retrySleeps := sleeps rw;
           updates := updates w |}).

Definition updateGeneratedPin (pinId : Z) (patch : PinPatch) : M unit :=
  fun w =>
    let (r, e') := dbUpdatePin pinId patch (env (sched w)) in
    (r, {| sched := {| env := e'; lookupCount := lookupCount (sched w);
                       errorLog := errorLog (sched w) |};
           fetchCalls := fetchCalls w; draws := draws w;
           retryWarnings := retryWarnings w; retrySleeps := retrySleeps w;
           updates := (pinId, patch) :: updates w |}).

Definition consoleError (reported : Thrown) : M unit :=
  fun w =>
    (Fulfilled tt,
     {| sched := {| env := env (sched w);
                    lookupCount := lookupCount (sched w);
                    errorLog := reported :: errorLog (sched w) |};
        fetchCalls := fetchCalls w; draws := draws w;
        retryWarnings := retryWarnings w; retrySleeps := retrySleeps w;
        updates := updates w |}).

(** The operation [createPostizPost] retries: one request and the reading
    of its response. *)
Definition postOnce (content : OptimizedContent) (imageUrl : jsstring)
    (scheduledTime : Z) (e : Env) : Outcome PostResult * Env :=
  let postContent := formatContentForPinterest content in
  match fetchPost {| requestContent := postContent;
                     scheduleTime := scheduledTime;
                     mediaUrl := imageUrl;
                     pinTitle := title content;
                     pinDescription := description content |} e with
  | (Rejected reason, e') => (Rejected reason, e')
  | (Fulfilled response, e') =>
      if negb (ok response) then
        (* [response.json().catch(() => ({ error: 'Unknown error' }))] *)
        let errorData :=
          match json response with
          | Fulfilled data => bodyError data
          | Rejected _ => Some (lit "Unknown error")
          end in
        (Rejected (ThrownError (newError
           (lit "Postiz API error: " ++ ofInt (status response) ++ lit " - "
            ++ stringOr errorData (lit "Unknown error")))), e')
      else
        match json response with
        | Rejected reason => (Rejected reason, e')
        | Fulfilled data =>
            if negb (bodySuccess data) then
              (Rejected (ThrownError (newError
                 (lit "Postiz API returned error: "
                  ++ stringOr (bodyError data) (lit "Unknown error")))), e')
            else
              (Fulfilled {| postSuccess := true; postId := bodyPostId data;
                            postError := None |}, e')
        end
  end.

Definition createPostizPost (content : OptimizedContent)
    (imageUrl : jsstring) (scheduledTime : Z) : M (option PostResult) :=
  liftRetry (postOnce content imageUrl scheduledTime) API_RETRY_CONFIG
    (lit "createPostizPost").

(** [schedulePin]; the [console.log] lines are left out.  [None] stands
    for a loop of the callees that ran out of fuel. *)
Definition schedulePin (this : PostizScheduler) (pinId : Z)
    (content : OptimizedContent) (imageUrl sourceUrl : jsstring)
    : M (option ScheduleResult) :=
  tryCatch
    (slot <- liftScheduler
               (findOptimalPostingTime Env dbGetScheduledPins clock this) ;;
     match slot with
     | None => ret None
     | Some scheduledTime =>
         created <- createPostizPost content imageUrl scheduledTime ;;
         match created with
         | None => ret None
         | Some postizResponse =>
             if negb (postSuccess postizResponse) then
               ret (Some {| success := false; scheduledTime := None;
                            postizId := None;
                            error := Some (stringOr (postError postizResponse)
                                             (lit "Failed to create Postiz post")) |})
             else
               updateGeneratedPin pinId
                 (MarkScheduled (postId postizResponse) scheduledTime) ;;;
               ret (Some {| success := true;
                            scheduledTime := Some scheduledTime;
                            postizId := postId postizResponse;
                            error := None |})
         end
     end)
    (fun error =>
       let errorMessage := message (toError error) in
       consoleError (ThrownValue errorMessage) ;;;
       updateGeneratedPin pinId (MarkFailed errorMessage) ;;;
       ret (Some {| success := false; scheduledTime := None;
                    postizId := None; error := Some errorMessage |})).

End Poster.

End Posting.

(** ** Concrete queues, messages and configurations *)

Module ExtraScenarios.

Import Retry PriorityQueue MessageQueue.

(** A configuration that allows no attempt. *)
Definition noAttemptConfig : RetryConfig :=
  {| maxAttempts := 0; baseDelay := 1000; maxDelay := 30000;
     backoffFactor := 2 |}.

(** A queue of numbers after two [enqueue] calls. *)
Definition twoEntries : list (Entry Z) := enqueue 20 1 (enqueue 10 5 []).

(** A processor whose only handler, for URLs, always throws; the
    environment counts the calls of that handler. *)
Definition urlHandlerFails (url : jsstring) (priority : Z) (calls : nat)
    : Outcome unit * nat :=
  (Rejected (ThrownError (newError (lit "scrape failed"))), S calls).

Definition failingHandlers : Handlers unit unit nat :=
  {| processUrl := Some urlHandlerFails; generateImage := None;
     schedulePin := None; cleanup := None |}.

Definition acceptingQueue (message : QueueMessage unit unit) (calls : nat)
    : Outcome unit * nat :=
  (Fulfilled tt, calls).

Definition fixedIsoNow (calls : nat) : jsstring :=
  lit "2024-01-01T00:00:00.000Z".

Definition urlMessage : QueueMessage unit unit :=
  {| body := ProcessUrl (lit "https://example.com/a") None;
     retryCount := None; maxRetries := None; createdAt := None |}.

Definition quietWorld : MessageQueue.World unit unit nat :=
  {| MessageQueue.env := 0%nat; console := []; timers := [];
     dataPoints := [] |}.

End ExtraScenarios.

(** ** A Postiz that accepts and a storage layer that refuses *)

Module PostingScenarios.

Import Scheduler Posting.

Definition acceptedBody : ResponseBody :=
  {| bodySuccess := true; bodyPostId := Some (lit "post-1");
     bodyError := None |}.

Definition acceptedResponse : Response :=
  {| ok := true; status := 200; json := Fulfilled acceptedBody |}.

Definition postizAccepts (request : PostRequest) (e : Z)
    : Outcome Response * Z :=
  (Fulfilled acceptedResponse, e).

Definition storageDown : Thrown :=
  ThrownError (newError (lit "D1_ERROR: no such table")).

(** The ['scheduled'] update is refused, the ['failed'] one goes through. *)
Definition refusesScheduled (pinId : Z) (patch : PinPatch) (e : Z)
    : Outcome unit * Z :=
  match patch with
  | MarkScheduled _ _ => (Rejected storageDown, e)
  | MarkFailed _ => (Fulfilled tt, e)
  end.

Definition samplePost : OptimizedContent :=
  {| title := lit "Ten ideas"; description := lit "A short description";
     hashtags := [lit "ideas"] |}.

Definition postingWorldAt (now : Z) : Posting.World Z :=
  {| sched := {| env := now; lookupCount := 0; errorLog := [] |};
     fetchCalls := 0; draws := 0; retryWarnings := []; retrySleeps := [];
     updates := [] |}.

End PostingScenarios.

(** ** A configuration at its cap *)

Module MoreScenarios.

Import Retry.


End MoreScenarios.

(** ** The rounds of the slot search *)

Module SearchRounds.

Import Scheduler SearchSpec.

Section Rounds.

Variable Env : Type.
Variable dbGetScheduledPins : Z -> Env -> Outcome (list GeneratedPin) * Env.

(** The environment after [n] lookups of [isTimeSlotAvailable], each of
    which asks for 100 rows. *)
Fixpoint envAfterLookups (n : nat) (e : Env) : Env :=
  match n with
  | O => e
  | S k => envAfterLookups k (snd (dbGetScheduledPins 100 e))
  end.

(** The round number [i] of a search that starts at [target] in the
    environment [e] finds its candidate unavailable: its lookup rejects, or
    answers with a pin within one hour of the candidate. *)
Definition roundUnavailable (this : PostizScheduler) (target : Z) (e : Env)
    (i : nat) : bool :=
  match fst (dbGetScheduledPins 100 (envAfterLookups i e)) with
  | Fulfilled pins => negb (isFree pins (candidateFrom this target i))
  | Rejected _ => true
  end.

End Rounds.

End SearchRounds.

(** ** Schedulers and schedules for the search *)

Module SearchScenarios.

Import Scheduler SchedulerSpec SearchSpec.

(** A scheduler built from [POSTING_HOURS = "9,10,11"]. *)
Definition hourlyScheduler : PostizScheduler :=
  {| firstOptimalHour := 9; laterOptimalHours := [10; 11];
     postsPerDay := 5; minGapMinutes := 60 |}.

(** One pin at each of the first 50 candidates of the default scheduler
    for a clock reading [now]. *)
Definition crowdedPins (now : Z) : list GeneratedPin :=
  pinsAt (map (candidate defaultScheduler now) (seq 0 50)).

End SearchScenarios.

(** ** JavaScript numbers as binary64 values *)

Module Double.

(** The double nearest to an integer of magnitude below 2^63 (ties to
    even); exact below 2^53. *)
Definition ofZ (z : Z) : float :=
  if z <? 0 then PrimFloat.opp (PrimFloat.of_uint63 (Uint63.of_Z (- z)))
  else PrimFloat.of_uint63 (Uint63.of_Z z).

Definition two52 : float := ofZ (2 ^ 52).

(** [Math.floor] on a double in [0, 2^52): adding and subtracting 2^52
    rounds to the nearest integer, which is the floor or one above it. *)
Definition floorBelowTwo52 (x : float) : float :=
  let nearest := (x + two52 - two52)%float in
  if PrimFloat.ltb x nearest then (nearest - 1)%float else nearest.

(** [Math.round]: the integer nearest to [x], a tie going towards
    +Infinity.  [NaN], the infinities, both zeros and every double of
    magnitude at least 2^52 (all of them integers) are returned as they
    are; the results in [-0.5, 0) are -0. *)
Definition mathRound (x : float) : float :=
  if PrimFloat.is_nan x then x
  else if PrimFloat.eqb x 0 then x
  else if PrimFloat.leb two52 (PrimFloat.abs x) then x
  else if PrimFloat.ltb x 0 then
    let magnitude := PrimFloat.abs x in
    let below := floorBelowTwo52 magnitude in
    if PrimFloat.ltb 0.5 (magnitude - below) then PrimFloat.opp (below + 1)
    else PrimFloat.opp below
  else
    let below := floorBelowTwo52 x in
    if PrimFloat.leb 0.5 (x - below) then (below + 1)%float else below.

End Double.

(** ** The schedule statistics in double precision

    [getScheduleStats] once more, with the average gap carried as the
    double the code computes; the counts and the slot are those of
    [Scheduler]. *)

Module SchedulerDouble.

Import Scheduler Double.

(** The [for] loop over [sortedPosts] from index 1, on doubles.  The time
    values of valid dates are integers of magnitude at most 8.64e15, so the
    difference of two of them is the double nearest to their exact
    difference. *)
Fixpoint gapLoop (previous : Z) (rest : list Z) (totalGapHours : float)
    (gapCount : Z) : float * Z :=
  match rest with
  | [] => (totalGapHours, gapCount)
  | current :: rest' =>
      let gap := (ofZ (current - previous) / ofZ (1000 * 60 * 60))%float in
      gapLoop current rest' (totalGapHours + gap)%float (gapCount + 1)
  end.

Definition gapTotals (sortedPosts : list Z) : float * Z :=
  match sortedPosts with
  | [] => (0%float, 0)
  | first :: rest => gapLoop first rest 0%float 0
  end.

(** The average-gap block of [getScheduleStats], rounding included. *)
Definition averageGap (scheduledPins : list GeneratedPin) : float :=
  let sortedPosts := sortAscending (scheduledInstants scheduledPins) in
  let (totalGapHours, gapCount) := gapTotals sortedPosts in
  let averageGapHours :=
    if gapCount >? 0 then (totalGapHours / ofZ gapCount)%float
    else 0%float in
  (mathRound (averageGapHours * 100) / 100)%float.

Record ScheduleStats := {
  totalScheduled : Z;
  postsToday : Z;
  postsThisWeek : Z;
  nextAvailableSlot : Z;
  averageGapHours : float
}.

Section Allocator.

Variable Env : Type.
Variable dbGetScheduledPins : Z -> Env -> Outcome (list GeneratedPin) * Env.
Variable clock : Env -> Z.

Definition getScheduleStats (this : PostizScheduler)
    : Prog (World Env) (option ScheduleStats) :=
  tryCatch
    (scheduledPins <- getScheduledPins Env dbGetScheduledPins 200 ;;
     now <- newDate Env clock ;;
     slot <- findOptimalPostingTime Env dbGetScheduledPins clock this ;;
     match slot with
     | None => ret None
     | Some nextAvailableSlot =>
         ret (Some {| totalScheduled := Z.of_nat (List.length scheduledPins);
                      postsToday := countToday now scheduledPins;
                      postsThisWeek := countThisWeek now scheduledPins;
                      nextAvailableSlot := nextAvailableSlot;
                      averageGapHours := averageGap scheduledPins |})
     end)
    (fun error =>
       consoleError Env error ;;;
       now <- newDate Env clock ;;
       ret (Some {| totalScheduled := 0; postsToday := 0; postsThisWeek := 0;
                    nextAvailableSlot := now; averageGapHours := 0%float |})).

End Allocator.

End SchedulerDouble.

(** ** The mean gap, in double precision *)

Module DoubleSpec.

Import Double.

(** The differences of consecutive instants, in milliseconds. *)
Fixpoint consecutiveGaps (instants : list Z) : list Z :=
  match instants with
  | a :: (b :: _) as rest => (b - a) :: consecutiveGaps rest
  | _ => []
  end.

Definition hours (milliseconds : Z) : float :=
  (ofZ milliseconds / ofZ msPerHour)%float.

(** The gaps in hours, added up from the first. *)
Definition sumHours (gaps : list Z) : float :=
  fold_left (fun total gap => (total + hours gap)%float) gaps 0%float.

(** The mean of the consecutive differences; 0 with fewer than two
    instants. *)
Definition meanGapHours (instants : list Z) : float :=
  let gaps := consecutiveGaps instants in
  if (List.length gaps =? 0)%nat then 0%float
  else (sumHours gaps / ofZ (Z.of_nat (List.length gaps)))%float.

(** Rounding to two decimals. *)
Definition roundTwoDecimals (x : float) : float :=
  (mathRound (x * 100) / 100)%float.

End DoubleSpec.

(** * Properties *)

(** ** The backoff calculator *)

Module BackoffFacts.

Import Retry RetryScenarios.

Lemma mathRound_monotone (x y : Q) : (x <= y)%Q -> mathRound x <= mathRound y.
Proof.
  intros Hxy. unfold mathRound. apply Qfloor_resp_le. lra.
Qed.

Lemma mathRound_nonneg (x : Q) : (0 <= x)%Q -> 0 <= mathRound x.
Proof.
  intros Hx. change 0 with (Qfloor (inject_Z 0)).
  unfold mathRound. apply Qfloor_resp_le.
  change (inject_Z 0) with 0%Q. lra.
Qed.


Lemma exponentialDelay_range (attempt : Z) (config : RetryConfig) :
  (1 <= backoffFactor config)%Q -> (0 <= baseDelay config)%Q ->
  (0 <= maxDelay config)%Q ->
  (0 <= exponentialDelay attempt config <= maxDelay config)%Q.
Proof.
  intros Hf Hb Hm. unfold exponentialDelay. split.
  - apply Q.min_glb; [| exact Hm].
    apply Qmult_le_0_compat; [exact Hb |].
    apply Qpower_0_le. lra.
  - apply Q.le_min_r.
Qed.

Lemma jittered_range (u : Q) (attempt : Z) (config : RetryConfig) :
  (1 <= backoffFactor config)%Q -> (0 <= baseDelay config)%Q ->
  (0 <= maxDelay config)%Q -> (0 <= u < 1)%Q ->
  (0 <= exponentialDelay attempt config + jitter u attempt config
     <= maxDelay config * (125 # 100))%Q.
Proof.
  intros Hf Hb Hm Hu.
  destruct (exponentialDelay_range attempt config Hf Hb Hm) as [H0 H1].
  unfold jitter. set (e := exponentialDelay attempt config) in *.
  split; nra.
Qed.


Lemma delayFromDraw_unfold (u : Q) (attempt : Z) (config : RetryConfig) :
  delayFromDraw u attempt config
  = Z.max 0 (mathRound (exponentialDelay attempt config
                        + jitter u attempt config)).
Proof. reflexivity. Qed.


End BackoffFacts.


(** ** The retry executors *)

Module RetryFacts.

Import Retry.

Section Executor.

Variable T : Type.
Variable St : Type.
Variable operation : St -> Outcome T * St.
Variable random : nat -> Q.
Variable config : RetryConfig.
Variable context : jsstring.

Local Abbreviation outcome := (outcomeAt T St operation).
Local Abbreviation loop :=
  (withRetryLoop T St operation random config context).
Local Abbreviation condLoop :=
  (withConditionalRetryLoop T St operation random config context).

(** One failed round that is not the last: one invocation, one sleep. *)
Local Abbreviation retried w w' :=
  (opState w' = snd (operation (opState w))
   /\ callCount w' = S (callCount w)
   /\ List.length (sleeps w') = S (List.length (sleeps w))).

Ltac run_round Hop :=
  cbv beta iota delta [bind tryCatch callOperation ret calculateDelay
                       mathRandom consoleWarn sleep];
  rewrite Hop.

Lemma outcome_shift (n : nat) (s : St) :
  outcome (S n) s = outcome n (snd (operation s)).
Proof. reflexivity. Qed.

Lemma withRetryLoop_returns (fuel : nat) (attempt : Z)
    (lastError : option Error) (w : World St) (v : T) :
  attempt <= maxAttempts config ->
  outcome 0%nat (opState w) = Fulfilled v ->
  loop (S fuel) attempt lastError w
  = (Fulfilled (Some (Returned v)),
     invoked (snd (operation (opState w))) w).
Proof.
  intros Hle Hv. unfold outcomeAt in Hv. simpl in Hv.
  apply Z.leb_le in Hle. cbn [withRetryLoop]. rewrite Hle.
  destruct (operation (opState w)) as [r s'] eqn:Hop. simpl in Hv. subst r.
  run_round Hop. reflexivity.
Qed.

Lemma withRetryLoop_breaks (fuel : nat) (lastError : option Error)
    (w : World St) (t : Thrown) :
  outcome 0%nat (opState w) = Rejected t ->
  loop (S fuel) (maxAttempts config) lastError w
  = (Fulfilled (Some (LeftLoop (Some (toError t)))),
     invoked (snd (operation (opState w))) w).
Proof.
  intros Ht. unfold outcomeAt in Ht. simpl in Ht.
  cbn [withRetryLoop]. rewrite Z.leb_refl.
  destruct (operation (opState w)) as [r s'] eqn:Hop. simpl in Ht. subst r.
  run_round Hop. rewrite Z.eqb_refl. reflexivity.
Qed.

Lemma withRetryLoop_retries (fuel : nat) (attempt : Z)
    (lastError : option Error) (w : World St) (t : Thrown) :
  attempt < maxAttempts config ->
  outcome 0%nat (opState w) = Rejected t ->
  exists w',
    loop (S fuel) attempt lastError w
    = loop fuel (attempt + 1) (Some (toError t)) w'
    /\ retried w w'.
Proof.
  intros Hlt Ht. unfold outcomeAt in Ht. simpl in Ht.
  assert (Hle : (attempt <=? maxAttempts config) = true)
    by (apply Z.leb_le; lia).
  assert (Hne : (attempt =? maxAttempts config) = false)
    by (apply Z.eqb_neq; lia).
  cbn [withRetryLoop]. rewrite Hle.
  destruct (operation (opState w)) as [r s'] eqn:Hop. simpl in Ht. subst r.
  run_round Hop. rewrite Hne.
  eexists. split; [reflexivity |].
  simpl. auto.
Qed.

(** The loop returns the value of the first attempt that succeeds. *)
Lemma withRetryLoop_succeeds (n : nat) :
  forall (fuel : nat) (attempt : Z) (lastError : option Error)
         (w : World St) (v : T),
    (n < fuel)%nat ->
    attempt + Z.of_nat n <= maxAttempts config ->
    (forall i, (i < n)%nat -> exists t, outcome i (opState w) = Rejected t) ->
    outcome n (opState w) = Fulfilled v ->
    exists w',
      loop fuel attempt lastError w = (Fulfilled (Some (Returned v)), w')
      /\ callCount w' = (callCount w + S n)%nat
      /\ List.length (sleeps w') = (List.length (sleeps w) + n)%nat.
Proof.
  induction n as [| n IH]; intros fuel attempt lastError w v Hfuel Hmax Hfail Hok.
  - destruct fuel as [| fuel]; [lia |].
    rewrite (withRetryLoop_returns fuel attempt lastError w v) by (assumption || lia).
    eexists. split; [reflexivity |]. simpl. split; lia.
  - destruct fuel as [| fuel]; [lia |].
    destruct (Hfail 0%nat) as [t Ht]; [lia |].
    destruct (withRetryLoop_retries fuel attempt lastError w t)
      as (w1 & Hstep & Hs & Hc & Hz); [lia | exact Ht |].
    rewrite Hstep.
    destruct (IH fuel (attempt + 1) (Some (toError t)) w1 v)
      as (w' & Hrun & Hc' & Hz').
    + lia.
    + lia.
    + intros i Hi. rewrite Hs, <- outcome_shift. apply Hfail. lia.
    + rewrite Hs, <- outcome_shift. exact Hok.
    + exists w'. split; [exact Hrun |]. split; lia.
Qed.

(** The loop is left after the attempt number [maxAttempts] when every
    attempt throws. *)
Lemma withRetryLoop_exhausts (n : nat) :
  forall (fuel : nat) (attempt : Z) (lastError : option Error)
         (w : World St) (last : Thrown),
    (n < fuel)%nat ->
    attempt + Z.of_nat n = maxAttempts config ->
    (forall i, (i < n)%nat -> exists t, outcome i (opState w) = Rejected t) ->
    outcome n (opState w) = Rejected last ->
    exists w',
      loop fuel attempt lastError w
      = (Fulfilled (Some (LeftLoop (Some (toError last)))), w')
      /\ callCount w' = (callCount w + S n)%nat
      /\ List.length (sleeps w') = (List.length (sleeps w) + n)%nat.
Proof.
  induction n as [| n IH]; intros fuel attempt lastError w last Hfuel Hmax Hfail Hlast.
  - destruct fuel as [| fuel]; [lia |].
    replace attempt with (maxAttempts config) by lia.
    rewrite (withRetryLoop_breaks fuel lastError w last) by assumption.
    eexists. split; [reflexivity |]. simpl. split; lia.
  - destruct fuel as [| fuel]; [lia |].
    destruct (Hfail 0%nat) as [t Ht]; [lia |].
    destruct (withRetryLoop_retries fuel attempt lastError w t)
      as (w1 & Hstep & Hs & Hc & Hz); [lia | exact Ht |].
    rewrite Hstep.
    destruct (IH fuel (attempt + 1) (Some (toError t)) w1 last)
      as (w' & Hrun & Hc' & Hz').
    + lia.
    + lia.
    + intros i Hi. rewrite Hs, <- outcome_shift. apply Hfail. lia.
    + rewrite Hs, <- outcome_shift. exact Hlast.
    + exists w'. split; [exact Hrun |]. split; lia.
Qed.

(** C1: [withRetry] returns the value of the first attempt that succeeds,
    after exactly that many invocations; when all [maxAttempts] attempts
    throw it has invoked the operation exactly [maxAttempts] times and
    throws one new [Error] whose message is the label, [" failed after "],
    the count, [" attempts. Last error: "] and the last error's message. *)
Theorem withRetry_attempts (w : World St) :
  1 <= maxAttempts config ->
  (forall (k : nat) (v : T),
      (1 <= k)%nat -> Z.of_nat k <= maxAttempts config ->
      (forall i, (i < k - 1)%nat ->
                 exists t, outcome i (opState w) = Rejected t) ->
      outcome (k - 1)%nat (opState w) = Fulfilled v ->
      exists w',
        withRetry T St operation random config context w
        = (Fulfilled (Some v), w')
        /\ callCount w' = (callCount w + k)%nat)
  /\ (forall last : Thrown,
        (forall i, (Z.of_nat i < maxAttempts config - 1) ->
                   exists t, outcome i (opState w) = Rejected t) ->
        outcome (Z.to_nat (maxAttempts config - 1)) (opState w)
        = Rejected last ->
        exists w',
          withRetry T St operation random config context w
          = (Rejected
               (ThrownError
                  {| name := lit "Error";
                     message :=
                       context ++ lit " failed after "
                       ++ ofInt (maxAttempts config)
                       ++ lit " attempts. Last error: "
                       ++ message (toError last) |}), w')
          /\ Z.of_nat (callCount w') = Z.of_nat (callCount w) + maxAttempts config).
Proof.
  intros Hmax. split.
  - intros k v Hk Hkmax Hfail Hok.
    destruct (withRetryLoop_succeeds (k - 1) (S (Z.to_nat (maxAttempts config)))
                1 None w v) as (w' & Hrun & Hc & _); try assumption; try lia.
    exists w'. unfold withRetry, bind. rewrite Hrun.
    split; [reflexivity | lia].
  - intros last Hfail Hlast.
    destruct (withRetryLoop_exhausts (Z.to_nat (maxAttempts config - 1))
                (S (Z.to_nat (maxAttempts config))) 1 None w last)
      as (w' & Hrun & Hc & _); try assumption; try lia.
    + intros i Hi. apply Hfail. lia.
    + exists w'. unfold withRetry, bind. rewrite Hrun.
      split; [| lia].
      reflexivity.
Qed.

Lemma withConditionalRetryLoop_returns (fuel : nat) (attempt : Z)
    (lastError : option Error) (w : World St) (v : T) :
  attempt <= maxAttempts config ->
  outcome 0%nat (opState w) = Fulfilled v ->
  condLoop (S fuel) attempt lastError w
  = (Fulfilled (Some (Returned v)),
     invoked (snd (operation (opState w))) w).
Proof.
  intros Hle Hv. unfold outcomeAt in Hv. simpl in Hv.
  apply Z.leb_le in Hle. cbn [withConditionalRetryLoop]. rewrite Hle.
  destruct (operation (opState w)) as [r s'] eqn:Hop. simpl in Hv. subst r.
  run_round Hop. reflexivity.
Qed.

(** A throw that is not retryable, or the throw of the last attempt,
    leaves the loop at once: no draw, no warning, no sleep. *)
Lemma withConditionalRetryLoop_breaks (fuel : nat) (attempt : Z)
    (lastError : option Error) (w : World St) (t : Thrown) :
  attempt <= maxAttempts config ->
  outcome 0%nat (opState w) = Rejected t ->
  isRetryableError (toError t) = false \/ attempt = maxAttempts config ->
  condLoop (S fuel) attempt lastError w
  = (Fulfilled (Some (LeftLoop (Some (toError t)))),
     invoked (snd (operation (opState w))) w).
Proof.
  intros Hle Ht Hwhy. unfold outcomeAt in Ht. simpl in Ht.
  apply Z.leb_le in Hle. cbn [withConditionalRetryLoop]. rewrite Hle.
  destruct (operation (opState w)) as [r s'] eqn:Hop. simpl in Ht. subst r.
  run_round Hop.
  assert (Hbreak : negb (isRetryableError (toError t))
                   || (attempt =? maxAttempts config) = true).
  { destruct Hwhy as [Hno | Hlast].
    - rewrite Hno. reflexivity.
    - apply Z.eqb_eq in Hlast. rewrite Hlast. apply orb_true_r. }
  rewrite Hbreak. reflexivity.
Qed.

Lemma withConditionalRetryLoop_retries (fuel : nat) (attempt : Z)
    (lastError : option Error) (w : World St) (t : Thrown) :
  attempt < maxAttempts config ->
  outcome 0%nat (opState w) = Rejected t ->
  isRetryableError (toError t) = true ->
  exists w',
    condLoop (S fuel) attempt lastError w
    = condLoop fuel (attempt + 1) (Some (toError t)) w'
    /\ retried w w'.
Proof.
  intros Hlt Ht Hyes. unfold outcomeAt in Ht. simpl in Ht.
  assert (Hle : (attempt <=? maxAttempts config) = true)
    by (apply Z.leb_le; lia).
  assert (Hne : (attempt =? maxAttempts config) = false)
    by (apply Z.eqb_neq; lia).
  cbn [withConditionalRetryLoop]. rewrite Hle.
  destruct (operation (opState w)) as [r s'] eqn:Hop. simpl in Ht. subst r.
  run_round Hop. rewrite Hne, Hyes. cbn [negb orb].
  eexists. split; [reflexivity |].
  simpl. auto.
Qed.

Lemma withConditionalRetryLoop_exhausts (n : nat) :
  forall (fuel : nat) (attempt : Z) (lastError : option Error)
         (w : World St) (last : Thrown),
    (n < fuel)%nat ->
    attempt + Z.of_nat n = maxAttempts config ->
    (forall i, (i < n)%nat ->
               exists t, outcome i (opState w) = Rejected t
                         /\ isRetryableError (toError t) = true) ->
    outcome n (opState w) = Rejected last ->
    exists w',
      condLoop fuel attempt lastError w
      = (Fulfilled (Some (LeftLoop (Some (toError last)))), w')
      /\ callCount w' = (callCount w + S n)%nat
      /\ List.length (sleeps w') = (List.length (sleeps w) + n)%nat.
Proof.
  induction n as [| n IH]; intros fuel attempt lastError w last Hfuel Hmax Hfail Hlast.
  - destruct fuel as [| fuel]; [lia |].
    rewrite (withConditionalRetryLoop_breaks fuel attempt lastError w last)
      by (assumption || lia || (right; lia)).
    eexists. split; [reflexivity |]. simpl. split; lia.
  - destruct fuel as [| fuel]; [lia |].
    destruct (Hfail 0%nat) as (t & Ht & Hyes); [lia |].
    destruct (withConditionalRetryLoop_retries fuel attempt lastError w t)
      as (w1 & Hstep & Hs & Hc & Hz); [lia | exact Ht | exact Hyes |].
    rewrite Hstep.
    destruct (IH fuel (attempt + 1) (Some (toError t)) w1 last)
      as (w' & Hrun & Hc' & Hz').
    + lia.
    + lia.
    + intros i Hi. rewrite Hs, <- outcome_shift. apply Hfail. lia.
    + rewrite Hs, <- outcome_shift. exact Hlast.
    + exists w'. split; [exact Hrun |]. split; lia.
Qed.

(** C5: when the first invocation throws an error that matches no
    transient pattern, [withConditionalRetry] throws that error after this
    one invocation: no draw from the jitter source, no warning, no sleep,
    no further attempt. *)
Theorem withConditionalRetry_propagates_at_once (w : World St) (t : Thrown) :
  1 <= maxAttempts config ->
  outcome 0%nat (opState w) = Rejected t ->
  isRetryableError (toError t) = false ->
  withConditionalRetry T St operation random config context w
  = (Rejected (ThrownError (toError t)),
     {| opState := snd (operation (opState w));
        callCount := S (callCount w);
        drawCount := drawCount w;
        warnings := warnings w;
        sleeps := sleeps w |}).
Proof.
  intros Hmax Ht Hno. unfold withConditionalRetry, bind.
  rewrite (withConditionalRetryLoop_breaks _ 1 None w t)
    by (assumption || (left; assumption)).
  reflexivity.
Qed.

End Executor.

End RetryFacts.

Module RetryExamples.

Import Retry RetryScenarios RetryFacts.

Lemma withRetry_attempts_witness :
  (exists w',
     withRetry Z nat failsOnce noJitter DEFAULT_RETRY_CONFIG (lit "fetch")
       startWorld = (Fulfilled (Some 42), w')
     /\ callCount w' = (callCount startWorld + 2)%nat)
  /\ (exists w',
        withRetry Z nat (alwaysFails (lit "boom")) noJitter
          DEFAULT_RETRY_CONFIG (lit "fetch") startWorld
        = (Rejected
             (ThrownError
                {| name := lit "Error";
                   message := lit "fetch failed after 3 attempts. Last error: boom" |}),
           w')
        /\ Z.of_nat (callCount w') = Z.of_nat (callCount startWorld) + 3).
Proof.
  split.
  - destruct (withRetry_attempts Z nat failsOnce noJitter DEFAULT_RETRY_CONFIG
                (lit "fetch") startWorld) as [Hok _].
    + simpl. lia.
    + apply (Hok 2%nat 42).
      * lia.
      * simpl. lia.
      * intros i Hi. assert (i = 0%nat) as -> by lia.
        eexists. reflexivity.
      * reflexivity.
  - destruct (withRetry_attempts Z nat (alwaysFails (lit "boom")) noJitter
                DEFAULT_RETRY_CONFIG (lit "fetch") startWorld) as [_ Hall].
    + simpl. lia.
    + apply (Hall (ThrownError (newError (lit "boom")))).
      * intros i _. eexists. reflexivity.
      * reflexivity.
Defined.

Lemma withConditionalRetry_propagates_at_once_witness :
  withConditionalRetry Z nat (alwaysFails (lit "invalid input")) noJitter
    DEFAULT_RETRY_CONFIG (lit "fetch") startWorld
  = (Rejected (ThrownError (newError (lit "invalid input"))),
     {| opState := 1%nat; callCount := 1; drawCount := 0; warnings := [];
        sleeps := [] |}).
Proof.
  apply (withConditionalRetry_propagates_at_once Z nat
           (alwaysFails (lit "invalid input")) noJitter DEFAULT_RETRY_CONFIG
           (lit "fetch") startWorld
           (ThrownError (newError (lit "invalid input")))).
  - simpl. lia.
  - reflexivity.
  - vm_compute. reflexivity.
Defined.

End RetryExamples.

(** ** Dates *)

Module DateFacts.

Lemma msPerHour_pos : 0 < msPerHour.
Proof. reflexivity. Qed.

Lemma msPerDay_hours : msPerDay = msPerHour * 24.
Proof. reflexivity. Qed.

Lemma getHours_range (t : Z) : 0 <= getHours t < 24.
Proof. unfold getHours. apply Z.mod_pos_bound. lia. Qed.

(** An instant is its day, its hour and the rest within the hour. *)
Lemma instant_split (t : Z) :
  t = startOfDay t + getHours t * msPerHour + t mod msPerHour.
Proof.
  unfold startOfDay, getHours. rewrite msPerDay_hours.
  rewrite Z.rem_mul_r by (unfold msPerHour; lia). lia.
Qed.

Lemma startOfDay_divides (t : Z) : startOfDay t mod msPerDay = 0.
Proof.
  unfold startOfDay.
  rewrite Zminus_mod, Z.mod_mod, Z.sub_diag by (unfold msPerDay, msPerHour; lia).
  reflexivity.
Qed.

Lemma startOfDay_multiple (t : Z) : exists k, startOfDay t = k * msPerDay.
Proof.
  exists (t / msPerDay). unfold startOfDay.
  pose proof (Z.div_mod t msPerDay). unfold msPerDay, msPerHour in *. lia.
Qed.

(** The parts of an instant given by day, hour and rest. *)
Lemma compose_parts (k h m : Z) :
  0 <= h < 24 -> 0 <= m < msPerHour ->
  startOfDay (k * msPerDay + h * msPerHour + m) = k * msPerDay
  /\ getHours (k * msPerDay + h * msPerHour + m) = h
  /\ (k * msPerDay + h * msPerHour + m) mod msPerHour = m.
Proof.
  intros Hh Hm.
  assert (Hmod : (k * msPerDay + h * msPerHour + m) mod msPerDay
                 = h * msPerHour + m).
  { rewrite <- Z.add_assoc, Z.add_comm, Z.mod_add
      by (unfold msPerDay, msPerHour; lia).
    apply Z.mod_small. unfold msPerDay, msPerHour in *. lia. }
  assert (Hdiv : (k * msPerDay + h * msPerHour + m) / msPerHour = k * 24 + h).
  { replace (k * msPerDay + h * msPerHour + m)
      with (m + (k * 24 + h) * msPerHour) by (unfold msPerDay; lia).
    rewrite Z.div_add by (unfold msPerHour; lia).
    rewrite Z.div_small by lia. lia. }
  repeat split.
  - unfold startOfDay. rewrite Hmod. lia.
  - unfold getHours. rewrite Hdiv.
    rewrite Z.add_comm, Z.mod_add by lia. apply Z.mod_small. lia.
  - replace (k * msPerDay + h * msPerHour + m)
      with (m + (k * 24 + h) * msPerHour) by (unfold msPerDay; lia).
    rewrite Z.mod_add by (unfold msPerHour; lia). apply Z.mod_small. lia.
Qed.

Lemma mod_hour_range (t : Z) : 0 <= t mod msPerHour < msPerHour.
Proof. apply Z.mod_pos_bound. reflexivity. Qed.

End DateFacts.

(** ** The next optimal time *)

Module NextOptimalTimeFacts.

Import Scheduler SchedulerSpec DateFacts.

(** In an ascending list [find] returns the least entry above a bound. *)
Lemma find_above_least (c : Z) (l : list Z) (x : Z) :
  Sorted Z.le l ->
  find (fun hour => hour >? c) l = Some x ->
  forall y, In y l -> c < y -> x <= y.
Proof.
  intros Hs. apply Sorted_StronglySorted in Hs;
    [| intros a b e Hab Hbe; lia].
  induction Hs as [| a l Hs IH Hall]; intros Hfind y Hy Hcy.
  - destruct Hy.
  - simpl in Hfind. destruct (Z.gtb_spec a c) as [Hac | Hac].
    + injection Hfind as <-. destruct Hy as [<- | Hy]; [lia |].
      rewrite Forall_forall in Hall. apply Hall. exact Hy.
    + destruct Hy as [<- | Hy]; [lia |]. apply IH; assumption.
Qed.

Lemma sorted_head_least (a : Z) (l : list Z) :
  Sorted Z.le (a :: l) -> forall y, In y (a :: l) -> a <= y.
Proof.
  intros Hs. apply Sorted_StronglySorted in Hs;
    [| intros x y z Hxy Hyz; lia].
  inversion Hs as [| ? ? _ Hall]; subst.
  intros y [<- | Hy]; [lia |].
  rewrite Forall_forall in Hall. apply Hall. exact Hy.
Qed.

Lemma find_above_none (c : Z) (l : list Z) :
  find (fun hour => hour >? c) l = None ->
  forall y, In y l -> y <= c.
Proof.
  intros Hnone y Hy.
  pose proof (find_none _ _ Hnone y Hy) as Hf. simpl in Hf.
  destruct (Z.gtb_spec y c); [discriminate | lia].
Qed.

Lemma find_existsb (f : Z -> bool) (l : list Z) :
  existsb f l = match find f l with Some _ => true | None => false end.
Proof.
  induction l as [| a l IH]; [reflexivity |].
  simpl. destruct (f a); [reflexivity | exact IH].
Qed.

(** A slot is its day plus its hour. *)
Lemma slot_parts (this : PostizScheduler) (s : Z) :
  isOptimalSlot this s -> s = startOfDay s + getHours s * msPerHour.
Proof.
  intros [Hzero _]. pose proof (instant_split s) as Hsplit. lia.
Qed.

(** [getNextOptimalTime] on an instant given by its parts. *)
Lemma getNextOptimalTime_parts (this : PostizScheduler) (k h m : Z) :
  0 <= h < 24 -> 0 <= m < msPerHour ->
  getNextOptimalTime this (k * msPerDay + h * msPerHour + m)
  = match find (fun hour => hour >? h) (optimalHours this) with
    | Some hour => k * msPerDay + hour * msPerHour
    | None => (k + 1) * msPerDay + firstOptimalHour this * msPerHour
    end.
Proof.
  intros Hh Hm. unfold getNextOptimalTime.
  destruct (compose_parts k h m Hh Hm) as (Hday & Hhour & _).
  rewrite Hhour.
  assert (Hnext : setHours0 (addDays (k * msPerDay + h * msPerHour + m) 1)
                    (firstOptimalHour this)
                  = (k + 1) * msPerDay + firstOptimalHour this * msPerHour).
  { unfold setHours0, addDays, shiftDate.
    replace (k * msPerDay + h * msPerHour + m + 1 * msPerDay)
      with ((k + 1) * msPerDay + h * msPerHour + m) by lia.
    destruct (compose_parts (k + 1) h m Hh Hm) as (-> & _). reflexivity. }
  destruct (find (fun hour => hour >? h) (optimalHours this)) as [x |] eqn:Hfind.
  - apply find_some in Hfind. destruct Hfind as [_ Hx].
    destruct (Z.gtb_spec x h); [| discriminate].
    assert (Hx0 : (x =? 0) = false) by (apply Z.eqb_neq; lia).
    rewrite Hx0. unfold setHours0. rewrite Hday. reflexivity.
  - exact Hnext.
Qed.

Lemma default_next_examples (day : Z) :
  getNextOptimalTime defaultScheduler (atTime day 10 0) = atTime day 12 0
  /\ getNextOptimalTime defaultScheduler (atTime day 22 0)
     = atTime (day + 1) 9 0.
Proof.
  unfold atTime. split.
  - rewrite (getNextOptimalTime_parts defaultScheduler day 10 (0 * 60000))
      by (unfold msPerHour; lia).
    simpl find. lia.
  - rewrite (getNextOptimalTime_parts defaultScheduler day 22 (0 * 60000))
      by (unfold msPerHour; lia).
    simpl find. simpl firstOptimalHour. lia.
Qed.

(** C2, as the code has it: for ascending optimal hours within 0..23 the
    result is the earliest optimal slot strictly later than [from] (an
    instant exactly at an optimal hour is not its own next slot), on the
    same day when an optimal hour above [from]'s hour exists and otherwise
    at the first optimal hour of the following day; from 10:00 it is 12:00
    of the same day and from 22:00 it is 09:00 of the next day under the
    default hours. *)
Theorem getNextOptimalTime_earliest_later (this : PostizScheduler) (from : Z) :
  (forall h, In h (optimalHours this) -> 0 <= h <= 23) ->
  Sorted Z.le (optimalHours this) ->
  isOptimalSlot this (getNextOptimalTime this from)
  /\ from < getNextOptimalTime this from
  /\ (forall s, isOptimalSlot this s -> from < s ->
                getNextOptimalTime this from <= s)
  /\ (if existsb (fun hour => hour >? getHours from) (optimalHours this)
      then startOfDay (getNextOptimalTime this from) = startOfDay from
      else startOfDay (getNextOptimalTime this from)
           = startOfDay from + msPerDay
           /\ getHours (getNextOptimalTime this from) = firstOptimalHour this)
  /\ (forall day,
        getNextOptimalTime defaultScheduler (atTime day 10 0) = atTime day 12 0
        /\ getNextOptimalTime defaultScheduler (atTime day 22 0)
           = atTime (day + 1) 9 0).
Proof.
  intros Hrange Hsorted.
  pose proof default_next_examples as Hexamples.
  destruct (startOfDay_multiple from) as [k Hk].
  pose proof (getHours_range from) as Hh.
  pose proof (mod_hour_range from) as Hm.
  pose proof (instant_split from) as Hsplit. rewrite Hk in Hsplit.
  assert (Hslots : forall s, isOptimalSlot this s ->
            exists ks hs, s = ks * msPerDay + hs * msPerHour
                          /\ In hs (optimalHours this) /\ 0 <= hs <= 23).
  { intros s Hs. destruct (startOfDay_multiple s) as [ks Hks].
    exists ks, (getHours s). pose proof (slot_parts this s Hs) as Hp.
    destruct Hs as [_ Hin]. rewrite Hks in Hp.
    repeat split; try assumption; apply (Hrange _ Hin). }
  assert (Hr : getNextOptimalTime this from
               = match find (fun hour => hour >? getHours from)
                              (optimalHours this) with
                 | Some hour => k * msPerDay + hour * msPerHour
                 | None => (k + 1) * msPerDay
                           + firstOptimalHour this * msPerHour
                 end).
  { rewrite Hsplit at 1. apply getNextOptimalTime_parts; assumption. }
  rewrite find_existsb, Hr. clear Hr.
  destruct (find (fun hour => hour >? getHours from) (optimalHours this))
    as [x |] eqn:Hfind.
  - pose proof (find_above_least _ _ _ Hsorted Hfind) as Hleast.
    apply find_some in Hfind. destruct Hfind as [Hin Hx].
    destruct (Z.gtb_spec x (getHours from)) as [Hgt |]; [| discriminate].
    pose proof (Hrange x Hin) as Hxr.
    destruct (compose_parts k x 0) as (Hday & Hhour & Hzero);
      [lia | unfold msPerHour; lia |].
    rewrite Z.add_0_r in Hday, Hhour, Hzero.
    split; [| split; [| split; [| split]]].
    + split; [exact Hzero | rewrite Hhour; exact Hin].
    + unfold msPerDay, msPerHour in *. lia.
    + intros s Hs Hlater.
      destruct (Hslots s Hs) as (ks & hs & -> & Hhs & Hhsr).
      assert (Hcases : ks < k \/ ks = k \/ k < ks) by lia.
      destruct Hcases as [Hlt | [-> | Hgt']].
      * unfold msPerDay, msPerHour in *. lia.
      * assert (getHours from < hs) by (unfold msPerDay, msPerHour in *; lia).
        pose proof (Hleast hs Hhs H). unfold msPerHour. lia.
      * unfold msPerDay, msPerHour in *. lia.
    + rewrite Hday. symmetry. exact Hk.
    + exact Hexamples.
  - pose proof (find_above_none _ _ Hfind) as Hnone.
    assert (Hfirst : In (firstOptimalHour this) (optimalHours this))
      by (left; reflexivity).
    pose proof (Hrange _ Hfirst) as Hfr.
    destruct (compose_parts (k + 1) (firstOptimalHour this) 0)
      as (Hday & Hhour & Hzero); [lia | unfold msPerHour; lia |].
    rewrite Z.add_0_r in Hday, Hhour, Hzero.
    split; [| split; [| split; [| split]]].
    + split; [exact Hzero | rewrite Hhour; exact Hfirst].
    + unfold msPerDay, msPerHour in *. lia.
    + intros s Hs Hlater.
      destruct (Hslots s Hs) as (ks & hs & -> & Hhs & Hhsr).
      pose proof (Hnone hs Hhs) as Hle.
      pose proof (sorted_head_least _ _ Hsorted hs Hhs) as Hmin.
      assert (Hcases : ks <= k \/ k < ks) by lia.
      destruct Hcases as [Hlt | Hgt'].
      * unfold msPerDay, msPerHour in *. lia.
      * unfold msPerDay, msPerHour in *. lia.
    + rewrite Hday, Hhour. split; [rewrite Hk; lia | reflexivity].
    + exact Hexamples.
Qed.

End NextOptimalTimeFacts.

(** ** The time-slot allocator *)

Module AllocatorFacts.

Import Scheduler SchedulerSpec DateFacts NextOptimalTimeFacts.

Lemma no_match_iff_not_exists {A : Type} (f : A -> bool) (l : list A) :
  (List.length (filter f l) =? 0)%nat = negb (existsb f l).
Proof.
  induction l as [| a l IH]; [reflexivity |].
  simpl. destruct (f a); [reflexivity | exact IH].
Qed.

Lemma inGap_spec (gapStart gapEnd : Z) (pin : GeneratedPin) :
  inGap gapStart gapEnd pin = true
  <-> exists t, scheduled_for pin = Some t /\ gapStart <= t <= gapEnd.
Proof.
  unfold inGap. destruct (scheduled_for pin) as [t |].
  - rewrite andb_true_iff, !Z.leb_le. split.
    + intros H. exists t. split; [reflexivity | exact H].
    + intros (t' & Heq & H). injection Heq as <-. exact H.
  - split; [discriminate | intros (t & Heq & _); discriminate].
Qed.

Section Allocator.

Variable Env : Type.
Variable db : Z -> Env -> Outcome (list GeneratedPin) * Env.
Variable clock : Env -> Z.

Local Abbreviation available := (isTimeSlotAvailable Env db).
Local Abbreviation search := (searchLoop Env db).

(** What one availability check does: one lookup; a failed lookup is
    logged and answered with [false]. *)
Lemma isTimeSlotAvailable_runs (this : PostizScheduler) (target : Z)
    (w : World Env) :
  available this target w
  = match db 100 (env w) with
    | (Fulfilled pins, e') =>
        (Fulfilled
           (negb (existsb (inGap (target - msPerHour) (target + msPerHour))
                    pins)),
         {| env := e'; lookupCount := S (lookupCount w);
            errorLog := errorLog w |})
    | (Rejected reason, e') =>
        (Fulfilled false,
         {| env := e'; lookupCount := S (lookupCount w);
            errorLog := reason :: errorLog w |})
    end.
Proof.
  unfold isTimeSlotAvailable, tryCatch, bind, getScheduledPins, consoleError, ret.
  destruct (db 100 (env w)) as [[pins | reason] e'].
  - rewrite no_match_iff_not_exists. unfold addHours.
    replace (target + -1 * msPerHour) with (target - msPerHour) by lia.
    replace (target + 1 * msPerHour) with (target + msPerHour) by lia.
    reflexivity.
  - reflexivity.
Qed.

(** An availability check never throws and costs exactly one lookup. *)
Lemma isTimeSlotAvailable_total (this : PostizScheduler) (target : Z)
    (w : World Env) :
  exists b w',
    available this target w = (Fulfilled b, w')
    /\ lookupCount w' = S (lookupCount w).
Proof.
  rewrite isTimeSlotAvailable_runs.
  destruct (db 100 (env w)) as [[pins | reason] e'];
    eexists; eexists; split; reflexivity.
Qed.

Lemma searchLoop_unavailable (this : PostizScheduler) (fuel : nat)
    (attempts target : Z) (w w' : World Env) :
  attempts < 50 ->
  available this target w = (Fulfilled false, w') ->
  search this (S fuel) attempts target w
  = search this fuel (attempts + 1)
      (getNextOptimalTime this (addHours target 1)) w'.
Proof.
  intros Hlt Hno. cbn [searchLoop].
  apply Z.ltb_lt in Hlt. rewrite Hlt.
  unfold bind at 1. rewrite Hno. reflexivity.
Qed.

Lemma searchLoop_available (this : PostizScheduler) (fuel : nat)
    (attempts target : Z) (w w' : World Env) :
  attempts < 50 ->
  available this target w = (Fulfilled true, w') ->
  search this (S fuel) attempts target w
  = (Fulfilled (Some (Some target)), w').
Proof.
  intros Hlt Hyes. cbn [searchLoop].
  apply Z.ltb_lt in Hlt. rewrite Hlt.
  unfold bind at 1. rewrite Hyes. reflexivity.
Qed.

(** With enough fuel the loop is left, by a return or by its bound, and it
    never throws. *)
Lemma searchLoop_total (this : PostizScheduler) (fuel : nat) :
  forall (attempts target : Z) (w : World Env),
    (0 < fuel)%nat ->
    50 - attempts < Z.of_nat fuel ->
    exists found w',
      search this fuel attempts target w = (Fulfilled (Some found), w').
Proof.
  induction fuel as [| fuel IH]; intros attempts target w Hpos Hfuel.
  - lia.
  - destruct (Z.ltb_spec attempts 50) as [Hlt | Hge].
    + destruct (isTimeSlotAvailable_total this target w) as (b & w1 & Hb & _).
      destruct b.
      * rewrite (searchLoop_available this fuel attempts target w w1 Hlt Hb).
        eexists; eexists; reflexivity.
      * rewrite (searchLoop_unavailable this fuel attempts target w w1 Hlt Hb).
        apply IH; lia.
    + cbn [searchLoop]. apply Z.ltb_ge in Hge. rewrite Hge.
      eexists; eexists; reflexivity.
Qed.

Lemma findOptimalPostingTime_total (this : PostizScheduler) (w : World Env) :
  exists t w',
    findOptimalPostingTime Env db clock this w = (Fulfilled (Some t), w').
Proof.
  unfold findOptimalPostingTime, bind, newDate.
  destruct (searchLoop_total this 51 0
              (getNextOptimalTime this (clock (env w))) w)
    as (found & w' & Hrun); [lia | lia |].
  fold (searchLoop Env db) in Hrun |- *.
  rewrite Hrun. destruct found as [t |]; eexists; eexists; reflexivity.
Qed.

(** [getScheduleStats] when its lookup succeeds: the clock is read after
    the lookup. *)
Lemma getScheduleStats_success (this : PostizScheduler) (w : World Env)
    (pins : list GeneratedPin) (e1 : Env) :
  db 200 (env w) = (Fulfilled pins, e1) ->
  exists slot w',
    getScheduleStats Env db clock this w
    = (Fulfilled
         (Some {| totalScheduled := Z.of_nat (List.length pins);
                  postsToday := countToday (clock e1) pins;
                  postsThisWeek := countThisWeek (clock e1) pins;
                  nextAvailableSlot := slot;
                  averageGapHours := averageGap pins |}), w').
Proof.
  intros Hdb. unfold getScheduleStats, tryCatch.
  unfold bind at 1. unfold getScheduledPins at 1. rewrite Hdb.
  unfold bind at 1. unfold newDate at 1. cbn [env].
  set (w1 := {| env := e1; lookupCount := S (lookupCount w);
                errorLog := errorLog w |}).
  destruct (findOptimalPostingTime_total this w1) as (slot & w' & Hslot).
  unfold bind. rewrite Hslot.
  exists slot, w'. reflexivity.
Qed.

(** [getScheduleStats] when its lookup fails: all counters are 0. *)
Lemma getScheduleStats_failure (this : PostizScheduler) (w : World Env)
    (reason : Thrown) (e1 : Env) :
  db 200 (env w) = (Rejected reason, e1) ->
  getScheduleStats Env db clock this w
  = (Fulfilled
       (Some {| totalScheduled := 0; postsToday := 0; postsThisWeek := 0;
                nextAvailableSlot := clock e1; averageGapHours := 0 |}),
     {| env := e1; lookupCount := S (lookupCount w);
        errorLog := reason :: errorLog w |}).
Proof.
  intros Hdb. unfold getScheduleStats, tryCatch.
  unfold bind at 1. unfold getScheduledPins at 1. rewrite Hdb.
  reflexivity.
Qed.

End Allocator.


(** With the default hours, a clock at 10:00 and one pin at 12:05, the
    candidate 12:00 is in conflict and the next one, 15:00, is free. *)
Lemma skips_conflicting_noon (day : Z) :
  fst (findOptimalPostingTime Z (dbReturning (pinsAt [atTime day 12 5]))
         frozenClock defaultScheduler (worldAt (atTime day 10 0)))
  = Fulfilled (Some (atTime day 15 0)).
Proof.
  unfold findOptimalPostingTime, bind, newDate.
  change (frozenClock (env (worldAt (atTime day 10 0))))
    with (atTime day 10 0).
  destruct (default_next_examples day) as [-> _].
  set (db := dbReturning (pinsAt [atTime day 12 5])).
  set (w := worldAt (atTime day 10 0)).
  assert (Hnoon : isTimeSlotAvailable Z db defaultScheduler (atTime day 12 0) w
                  = (Fulfilled false,
                     {| env := env w; lookupCount := S (lookupCount w);
                        errorLog := errorLog w |})).
  { rewrite isTimeSlotAvailable_runs. subst db. unfold dbReturning, pinsAt.
    cbn [map existsb]. 
    assert (Hin : inGap (atTime day 12 0 - msPerHour)
                    (atTime day 12 0 + msPerHour)
                    {| pinId := 0; scheduled_for := Some (atTime day 12 5) |}
                  = true).
    { apply inGap_spec. exists (atTime day 12 5).
      split; [reflexivity |]. unfold atTime, msPerDay, msPerHour. lia. }
    rewrite Hin. reflexivity. }
  rewrite (searchLoop_unavailable Z db defaultScheduler 50 0 _ _ _
             ltac:(lia) Hnoon).
  assert (Hnext : getNextOptimalTime defaultScheduler
                    (addHours (atTime day 12 0) 1) = atTime day 15 0).
  { unfold addHours, atTime.
    replace (day * msPerDay + 12 * msPerHour + 0 * 60000 + 1 * msPerHour)
      with (day * msPerDay + 13 * msPerHour + 0) by lia.
    rewrite getNextOptimalTime_parts by (unfold msPerHour; lia).
    simpl find. lia. }
  rewrite Hnext.
  set (w1 := {| env := env w; lookupCount := S (lookupCount w);
                errorLog := errorLog w |}).
  assert (Hthree : isTimeSlotAvailable Z db defaultScheduler (atTime day 15 0) w1
                   = (Fulfilled true,
                      {| env := env w1; lookupCount := S (lookupCount w1);
                         errorLog := errorLog w1 |})).
  { rewrite isTimeSlotAvailable_runs. subst db. unfold dbReturning, pinsAt.
    cbn [map existsb].
    assert (Hout : inGap (atTime day 15 0 - msPerHour)
                     (atTime day 15 0 + msPerHour)
                     {| pinId := 0; scheduled_for := Some (atTime day 12 5) |}
                   = false).
    { apply not_true_is_false. intros Hin. apply inGap_spec in Hin.
      destruct Hin as (t & Heq & Ht). injection Heq as <-.
      unfold atTime, msPerDay, msPerHour in Ht. lia. }
    rewrite Hout. reflexivity. }
  rewrite (searchLoop_available Z db defaultScheduler 49 (0 + 1) _ _ _
             ltac:(lia) Hthree).
  reflexivity.
Qed.

End AllocatorFacts.

(** ** Schedule statistics *)

Module StatsFacts.

Import Scheduler SchedulerSpec DateFacts AllocatorFacts.


Lemma insertSorted_sorted (x : Z) (l : list Z) :
  Sorted Z.le l -> Sorted Z.le (insertSorted x l).
Proof.
  intros Hs. induction Hs as [| y l Hs IH Hhd]; simpl.
  - repeat constructor.
  - destruct (Z.leb_spec x y) as [Hxy | Hyx].
    + constructor; [constructor; assumption |]. constructor. exact Hxy.
    + constructor; [exact IH |].
      destruct l as [| z l]; simpl.
      * constructor. lia.
      * inversion Hhd; subst.
        destruct (Z.leb_spec x z); constructor; lia.
Qed.


Lemma sortAscending_sorted (l : list Z) : Sorted Z.le (sortAscending l).
Proof.
  induction l as [| x l IH]; simpl.
  - constructor.
  - apply insertSorted_sorted. exact IH.
Qed.




(** The loop adds the consecutive differences to its total and their
    number to its counter. *)
Lemma gapLoop_spec (rest : list Z) :
  forall previous totalGapHours gapCount,
    (fst (gapLoop previous rest totalGapHours gapCount)
     == totalGapHours + consecutiveGapHours (previous :: rest))%Q
    /\ snd (gapLoop previous rest totalGapHours gapCount)
       = gapCount + Z.of_nat (List.length rest).
Proof.
  induction rest as [| current rest IH]; intros previous total count.
  - simpl. split; [ring | lia].
  - cbn [gapLoop]. destruct (IH current
      (total + inject_Z (current - previous) / inject_Z (1000 * 60 * 60))%Q
      (count + 1)) as [Htotal Hcount].
    split.
    + rewrite Htotal. cbn [consecutiveGapHours].
      change (inject_Z (1000 * 60 * 60)) with (inject_Z msPerHour). ring.
    + rewrite Hcount. cbn [List.length]. lia.
Qed.

(** The loop of the code computes the mean of the consecutive gaps. *)
Lemma averageGap_is_mean (pins : list GeneratedPin) :
  averageGap pins
  = roundTwoDecimals
      (meanGapHours (sortAscending (scheduledInstants pins))).
Proof.
  unfold averageGap, roundTwoDecimals, meanGapHours.
  destruct (sortAscending (scheduledInstants pins)) as [| a [| b rest]].
  - reflexivity.
  - reflexivity.
  - unfold gapTotals.
    destruct (gapLoop_spec (b :: rest) a 0%Q 0) as [Htotal Hcount].
    destruct (gapLoop a (b :: rest) 0%Q 0) as [total count].
    simpl fst in Htotal. simpl snd in Hcount.
    assert (Hpos : (count >? 0) = true).
    { apply Z.gtb_lt. rewrite Hcount. cbn [List.length]. lia. }
    rewrite Hpos.
    change ((List.length (a :: b :: rest) <? 2)%nat) with false. cbv iota.
    f_equal. f_equal. unfold mathRound. apply Qfloor_comp.
    rewrite Htotal, Hcount.
    replace (Z.of_nat (List.length (a :: b :: rest) - 1))
      with (0 + Z.of_nat (List.length (b :: rest)))
      by (cbn [List.length]; lia).
    rewrite Qplus_0_l. reflexivity.
Qed.


Lemma countThisWeek_counts (now : Z) (pins : list GeneratedPin) :
  countThisWeek now pins
  = Z.of_nat (List.length
                (filter (fun t => now - getDay now * msPerDay <=? t)
                        (scheduledInstants pins))).
Proof.
  unfold countThisWeek, weekStart, shiftDate. f_equal.
  induction pins as [| pin pins IH]; [reflexivity |].
  cbn [filter scheduledInstants flat_map].
  fold (scheduledInstants pins).
  destruct (scheduled_for pin) as [t |]; cbn [app filter].
  - replace (now + - getDay now * msPerDay)
      with (now - getDay now * msPerDay) in * by lia.
    rewrite Z.geb_leb.
    destruct (now - getDay now * msPerDay <=? t); cbn [List.length];
      rewrite IH; reflexivity.
  - exact IH.
Qed.

(** C9, on the code: the start of the week keeps the time of day of [now],
    so a pin of the week's day 0 earlier than that time of day is not
    counted.  On Wednesday 3 January 2024 at 15:00 a pin scheduled for
    Sunday 31 December 2023 at 10:00 gives [postsThisWeek = 0]. *)
Theorem postsThisWeek_keeps_time_of_day :
  (forall now pins,
      countThisWeek now pins
      = Z.of_nat (List.length
                    (filter (fun t => now - getDay now * msPerDay <=? t)
                            (scheduledInstants pins))))
  /\ getDay (atTime 19725 15 0) = 3
  /\ getDay (atTime 19722 10 0) = 0
  /\ startOfDay (atTime 19722 10 0)
     = startOfDay (atTime 19725 15 0) - getDay (atTime 19725 15 0) * msPerDay
  /\ countThisWeek (atTime 19725 15 0) (pinsAt [atTime 19722 10 0]) = 0
  /\ (exists stats w',
        getScheduleStats Z (dbReturning (pinsAt [atTime 19722 10 0]))
          frozenClock defaultScheduler (worldAt (atTime 19725 15 0))
        = (Fulfilled (Some stats), w')
        /\ postsThisWeek stats = 0).
Proof.
  split; [exact countThisWeek_counts |].
  repeat split; try (vm_compute; reflexivity).
  destruct (getScheduleStats_success Z
              (dbReturning (pinsAt [atTime 19722 10 0])) frozenClock
              defaultScheduler (worldAt (atTime 19725 15 0))
              (pinsAt [atTime 19722 10 0]) (atTime 19725 15 0) eq_refl)
    as (slot & w' & Hrun).
  eexists. exists w'. split; [exact Hrun |].
  vm_compute. reflexivity.
Qed.

End StatsFacts.

(** ** The Pinterest formatter *)

Module FormatFacts.

Import Scheduler.

(** C10: the formatted body has at most 500 code units; it is the title, a
    blank line, the description and, when there are hashtags, a blank line
    and the first 30 of them, each behind ['#'], separated by spaces; when
    that text has more than 500 code units the result is its first 497
    followed by ["..."]. *)
Theorem formatContentForPinterest_limit (content : OptimizedContent) :
  let combined :=
    (title content ++ blankLine ++ description content)
    ++ match hashtags content with
       | [] => []
       | _ :: _ =>
           blankLine
           ++ join (lit " ")
                (map (fun tag => lit "#" ++ tag)
                     (firstn 30 (hashtags content)))
       end in
  (List.length (formatContentForPinterest content) <= 500)%nat
  /\ formatContentForPinterest content
     = (if (500 <? List.length combined)%nat
        then firstn 497 combined ++ lit "..."
        else combined)
  /\ (List.length (firstn 30 (hashtags content)) <= 30)%nat.
Proof.
  intros combined.
  assert (Hshape : formatContentForPinterest content
                   = (if (500 <? List.length combined)%nat
                      then firstn 497 combined ++ lit "..."
                      else combined)).
  { unfold formatContentForPinterest, combined, substring0.
    destruct (hashtags content) as [| tag tags].
    - cbn [List.length Nat.ltb Nat.leb]. rewrite app_nil_r. reflexivity.
    - reflexivity. }
  split; [| split; [exact Hshape |]].
  - rewrite Hshape.
    destruct (Nat.ltb_spec 500 (List.length combined)) as [Hlong | Hshort].
    + rewrite length_app, firstn_length_le by lia.
      change (List.length (lit "...")) with 3%nat. lia.
    + exact Hshort.
  - apply firstn_le_length.
Qed.

End FormatFacts.

(** ** Runs on concrete schedules *)

Module SchedulerExamples.

Import Scheduler SchedulerSpec DateFacts NextOptimalTimeFacts AllocatorFacts.

Lemma default_hours_in_range :
  forall h, In h (optimalHours defaultScheduler) -> 0 <= h <= 23.
Proof.
  intros h Hin. simpl in Hin.
  repeat (destruct Hin as [<- | Hin]; [lia |]). destruct Hin.
Qed.

Lemma default_hours_sorted : Sorted Z.le (optimalHours defaultScheduler).
Proof.
  unfold optimalHours. simpl.
  repeat (constructor; try lia).
Qed.

Lemma getNextOptimalTime_earliest_later_witness :
  isOptimalSlot defaultScheduler
    (getNextOptimalTime defaultScheduler (atTime 19723 10 30))
  /\ atTime 19723 10 30
     < getNextOptimalTime defaultScheduler (atTime 19723 10 30)
  /\ getNextOptimalTime defaultScheduler (atTime 19723 10 30)
     = atTime 19723 12 0.
Proof.
  destruct (getNextOptimalTime_earliest_later defaultScheduler
              (atTime 19723 10 30) default_hours_in_range
              default_hours_sorted) as (Hslot & Hlater & _).
  split; [exact Hslot |]. split; [exact Hlater |].
  vm_compute. reflexivity.
Defined.

(** C2 as stated fails at an instant that is itself an optimal slot: from
    09:00:00.000 the code answers 12:00, although 09:00 is an instant not
    before [from] at an optimal hour.  Read with "strictly later", it still
    fails for hours that are not listed in ascending order: with the hours
    21, 9 and [from] at 08:00 the code answers 21:00, not 09:00. *)
Lemma getNextOptimalTime_skips_exact_hour :
  ~ (forall (this : PostizScheduler) (from : Z),
        (forall h, In h (optimalHours this) -> 0 <= h <= 23) ->
        isOptimalSlot this (getNextOptimalTime this from)
        /\ from <= getNextOptimalTime this from
        /\ (forall s, isOptimalSlot this s -> from <= s ->
                      getNextOptimalTime this from <= s))
  /\ ~ (forall (this : PostizScheduler) (from : Z),
          (forall h, In h (optimalHours this) -> 0 <= h <= 23) ->
          forall s, isOptimalSlot this s -> from < s ->
                    getNextOptimalTime this from <= s).
Proof.
  split.
  - intros Hclaim.
    destruct (Hclaim defaultScheduler (atTime 19723 9 0)
                default_hours_in_range) as (_ & _ & Hearliest).
    assert (Hslot : isOptimalSlot defaultScheduler (atTime 19723 9 0)).
    { split; [vm_compute; reflexivity |].
      vm_compute. left. reflexivity. }
    specialize (Hearliest (atTime 19723 9 0) Hslot (Z.le_refl _)).
    revert Hearliest. vm_compute. intros H. apply H. reflexivity.
  - intros Hclaim.
    assert (Hrange : forall h, In h (optimalHours eveningFirst) ->
                               0 <= h <= 23).
    { intros h Hin. simpl in Hin.
      repeat (destruct Hin as [<- | Hin]; [lia |]). destruct Hin. }
    assert (Hslot : isOptimalSlot eveningFirst (atTime 19723 9 0)).
    { split; [vm_compute; reflexivity |].
      vm_compute. right. left. reflexivity. }
    specialize (Hclaim eveningFirst (atTime 19723 8 0) Hrange
                  (atTime 19723 9 0) Hslot ltac:(vm_compute; reflexivity)).
    revert Hclaim. vm_compute. intros H. apply H. reflexivity.
Qed.

End SchedulerExamples.

(** ** More on the backoff calculator *)

Module BackoffMore.

Import Retry RetrySpec RetryScenarios BackoffFacts.

Lemma exponentialDelay_monotone (a b : Z) (config : RetryConfig) :
  a <= b ->
  (1 <= backoffFactor config)%Q -> (0 <= baseDelay config)%Q ->
  (exponentialDelay a config <= exponentialDelay b config)%Q.
Proof.
  intros Hab Hf Hb. unfold exponentialDelay.
  apply Q.min_le_compat_r.
  assert (Hpow : (backoffFactor config ^ (a - 1)
                  <= backoffFactor config ^ (b - 1))%Q)
    by (apply Qpower_le_compat_l; [lia | exact Hf]).
  set (pa := (backoffFactor config ^ (a - 1))%Q) in *.
  set (pb := (backoffFactor config ^ (b - 1))%Q) in *.
  nra.
Qed.

(** X1: for one and the same jitter draw the delay never decreases from an
    attempt to a later one. *)
Theorem delay_monotone_in_attempt (u : Q) (a b : Z) (config : RetryConfig) :
  a <= b ->
  (1 <= backoffFactor config)%Q ->
  (0 <= baseDelay config)%Q ->
  (0 <= u < 1)%Q ->
  delayFromDraw u a config <= delayFromDraw u b config.
Proof.
  intros Hab Hf Hb Hu. rewrite !delayFromDraw_unfold.
  apply Z.max_le_compat_l. apply mathRound_monotone.
  pose proof (exponentialDelay_monotone a b config Hab Hf Hb) as Hmono.
  unfold jitter.
  set (ea := exponentialDelay a config) in *.
  set (eb := exponentialDelay b config) in *.
  nra.
Qed.

End BackoffMore.

Module BackoffBand.

Import Retry RetrySpec BackoffFacts.

Lemma delayFromDraw_in_bounds (u : Q) (attempt : Z) (config : RetryConfig) :
  (1 <= backoffFactor config)%Q -> (0 <= baseDelay config)%Q ->
  (0 <= maxDelay config)%Q -> (0 <= u < 1)%Q ->
  sleepInBounds config (delayFromDraw u attempt config).
Proof.
  intros Hf Hb Hm Hu. unfold sleepInBounds.
  rewrite delayFromDraw_unfold.
  pose proof (jittered_range u attempt config Hf Hb Hm Hu) as [Hlo Hhi].
  pose proof (mathRound_nonneg _ Hlo).
  pose proof (mathRound_monotone _ _ Hhi). lia.
Qed.

End BackoffBand.

(** ** More on the retry executors *)

Module RetryMore.

Import Retry RetrySpec BackoffFacts BackoffBand RetryFacts.

Section Executor.

Variable T : Type.
Variable St : Type.
Variable operation : St -> Outcome T * St.
Variable random : nat -> Q.
Variable config : RetryConfig.
Variable context : jsstring.

Local Abbreviation outcome := (outcomeAt T St operation).
Local Abbreviation loop :=
  (withRetryLoop T St operation random config context).
Local Abbreviation condLoop :=
  (withConditionalRetryLoop T St operation random config context).

(** X3: without a single allowed attempt neither executor invokes the
    operation: both reject at once and leave the world as it was. *)
Theorem no_attempt_allowed (w : World St) :
  maxAttempts config < 1 ->
  (exists reason,
      withRetry T St operation random config context w = (Rejected reason, w))
  /\ (exists reason,
        withConditionalRetry T St operation random config context w
        = (Rejected reason, w)).
Proof.
  intros Hnone.
  assert (Htest : (1 <=? maxAttempts config) = false)
    by (apply Z.leb_gt; exact Hnone).
  split; eexists.
  - unfold withRetry, bind. cbn [withRetryLoop]. rewrite Htest. reflexivity.
  - unfold withConditionalRetry, bind. cbn [withConditionalRetryLoop].
    rewrite Htest. reflexivity.
Qed.

(** A failed round that is not the last, with the world it leaves. *)
Lemma withRetryLoop_retries_exact (fuel : nat) (attempt : Z)
    (lastError : option Error) (w : World St) (t : Thrown) :
  attempt < maxAttempts config ->
  outcome 0%nat (opState w) = Rejected t ->
  exists w',
    loop (S fuel) attempt lastError w
    = loop fuel (attempt + 1) (Some (toError t)) w'
    /\ callCount w' = S (callCount w)
    /\ sleeps w'
       = delayFromDraw (random (drawCount w)) attempt config :: sleeps w.
Proof.
  intros Hlt Ht. unfold outcomeAt in Ht. simpl in Ht.
  assert (Hle : (attempt <=? maxAttempts config) = true)
    by (apply Z.leb_le; lia).
  assert (Hne : (attempt =? maxAttempts config) = false)
    by (apply Z.eqb_neq; lia).
  cbn [withRetryLoop]. rewrite Hle.
  destruct (operation (opState w)) as [r s'] eqn:Hop. simpl in Ht. subst r.
  cbv beta iota delta [bind tryCatch callOperation ret calculateDelay
                       mathRandom consoleWarn sleep].
  rewrite Hop, Hne.
  eexists. split; [reflexivity |]. simpl. auto.
Qed.

(** Whatever the operation does, the loop is left after at most the
    remaining attempts, with one sleep less than invocations and every
    sleep within bounds. *)
Lemma withRetryLoop_budget (fuel : nat) :
  forall (attempt : Z) (lastError : option Error) (w : World St),
    unitDraws random ->
    (1 <= backoffFactor config)%Q -> (0 <= baseDelay config)%Q ->
    (0 <= maxDelay config)%Q ->
    attempt <= maxAttempts config ->
    maxAttempts config - attempt < Z.of_nat fuel ->
    exists exit w' new,
      loop fuel attempt lastError w = (Fulfilled (Some exit), w')
      /\ sleeps w' = new ++ sleeps w
      /\ callCount w' = (callCount w + S (List.length new))%nat
      /\ Z.of_nat (List.length new) <= maxAttempts config - attempt
      /\ Forall (sleepInBounds config) new.
Proof.
  induction fuel as [| fuel IH];
    intros attempt lastError w Hdraws Hf Hb Hm Hle Hfuel; [lia |].
  destruct (outcome 0%nat (opState w)) as [v | t] eqn:Hfirst.
  - rewrite (withRetryLoop_returns T St operation random config context
               fuel attempt lastError w v Hle Hfirst).
    exists (Returned v), (invoked (snd (operation (opState w))) w), [].
    simpl. repeat split; try lia. constructor.
  - destruct (Z.eq_dec attempt (maxAttempts config)) as [-> | Hne].
    + rewrite (withRetryLoop_breaks T St operation random config context
                 fuel lastError w t Hfirst).
      exists (LeftLoop (Some (toError t))),
             (invoked (snd (operation (opState w))) w), [].
      simpl. repeat split; try lia. constructor.
    + destruct (withRetryLoop_retries_exact fuel attempt lastError w t)
        as (w1 & Hstep & Hc & Hs); [lia | exact Hfirst |].
      rewrite Hstep.
      destruct (IH (attempt + 1) (Some (toError t)) w1)
        as (exit & w' & new & Hrun & Hs' & Hc' & Hn & Hall);
        try assumption; try lia.
      exists exit, w',
             (new ++ [delayFromDraw (random (drawCount w)) attempt config]).
      split; [exact Hrun |].
      rewrite Hs', Hs, Hc', Hc, <- app_assoc, length_app. simpl.
      repeat split; try lia.
      apply Forall_app. split; [exact Hall |].
      constructor; [| constructor].
      apply delayFromDraw_in_bounds; try assumption. apply Hdraws.
Qed.

(** After [n] retryable failures the conditional loop stands at the
    attempt number [attempt + n]. *)
Lemma withConditionalRetryLoop_after_retries (n : nat) :
  forall (fuel : nat) (attempt : Z) (lastError : option Error)
         (w : World St),
    attempt + Z.of_nat n <= maxAttempts config ->
    (forall i, (i < n)%nat ->
               exists t, outcome i (opState w) = Rejected t
                         /\ isRetryableError (toError t) = true) ->
    exists lastError' w',
      condLoop (n + S fuel) attempt lastError w
      = condLoop (S fuel) (attempt + Z.of_nat n) lastError' w'
      /\ opState w' = stateAfter T St operation n (opState w)
      /\ callCount w' = (callCount w + n)%nat
      /\ List.length (sleeps w') = (List.length (sleeps w) + n)%nat.
Proof.
  induction n as [| n IH]; intros fuel attempt lastError w Hmax Hfail.
  - exists lastError, w. rewrite Z.add_0_r.
    repeat split; simpl; lia.
  - destruct (Hfail 0%nat) as (t & Ht & Hyes); [lia |].
    destruct (withConditionalRetryLoop_retries T St operation random config
                context (n + S fuel) attempt lastError w t)
      as (w1 & Hstep & Hs & Hc & Hz); [lia | exact Ht | exact Hyes |].
    destruct (IH fuel (attempt + 1) (Some (toError t)) w1)
      as (le' & w' & Hrun & Hs' & Hc' & Hz').
    + lia.
    + intros i Hi. rewrite Hs, <- outcome_shift. apply Hfail. lia.
    + exists le', w'. cbn [Nat.add]. rewrite Hstep, Hrun.
      replace (attempt + 1 + Z.of_nat n) with (attempt + Z.of_nat (S n))
        by lia.
      split; [reflexivity |].
      rewrite Hs', Hs. simpl. repeat split; lia.
Qed.

(** X5: [withConditionalRetry] retries through transient failures and stops
    at the first attempt that succeeds or that fails with an error
    matching no pattern: after [n] transient failures, a success returns
    its value and a fatal error is thrown as it is, both after exactly
    [n + 1] invocations and [n] sleeps. *)
Theorem withConditionalRetry_stops_at_first_verdict (w : World St) (n : nat) :
  Z.of_nat n < maxAttempts config ->
  (forall i, (i < n)%nat ->
             exists t, outcome i (opState w) = Rejected t
                       /\ isRetryableError (toError t) = true) ->
  (forall v,
      outcome n (opState w) = Fulfilled v ->
      exists w',
        withConditionalRetry T St operation random config context w
        = (Fulfilled (Some v), w')
        /\ callCount w' = (callCount w + S n)%nat
        /\ List.length (sleeps w') = (List.length (sleeps w) + n)%nat)
  /\ (forall t,
        outcome n (opState w) = Rejected t ->
        isRetryableError (toError t) = false ->
        exists w',
          withConditionalRetry T St operation random config context w
          = (Rejected (ThrownError (toError t)), w')
          /\ callCount w' = (callCount w + S n)%nat
          /\ List.length (sleeps w') = (List.length (sleeps w) + n)%nat).
Proof.
  intros Hn Hfail.
  destruct (withConditionalRetryLoop_after_retries n
              (Z.to_nat (maxAttempts config) - n) 1 None w)
    as (le' & w1 & Hrun & Hs & Hc & Hz); [lia | exact Hfail |].
  replace (n + S (Z.to_nat (maxAttempts config) - n))%nat
    with (S (Z.to_nat (maxAttempts config))) in Hrun by lia.
  split.
  - intros v Hv.
    unfold withConditionalRetry, bind. rewrite Hrun.
    rewrite (withConditionalRetryLoop_returns T St operation random config
               context _ _ le' w1 v)
      by (try lia; rewrite Hs; exact Hv).
    eexists. split; [reflexivity |]. simpl. split; lia.
  - intros t Ht Hno.
    unfold withConditionalRetry, bind. rewrite Hrun.
    rewrite (withConditionalRetryLoop_breaks T St operation random config
               context _ _ le' w1 t)
      by (try lia; try (rewrite Hs; exact Ht); left; exact Hno).
    eexists. split; [reflexivity |]. simpl. split; lia.
Qed.

End Executor.

End RetryMore.

(** ** The transient-error patterns *)

Module PatternFacts.

Import Retry RetrySpec.

Lemma canonicalize_idempotent (c : codeunit) :
  canonicalize (canonicalize c) = canonicalize c.
Proof.
  unfold canonicalize.
  destruct ((97 <=? c)%N && (c <=? 122)%N) eqn:Hlower; [| rewrite Hlower; reflexivity].
  apply andb_true_iff in Hlower. destruct Hlower as [Hlo Hhi].
  apply N.leb_le in Hlo. apply N.leb_le in Hhi.
  assert (Hout : ((97 <=? c - 32)%N && (c - 32 <=? 122)%N) = false).
  { apply andb_false_iff. left. apply N.leb_gt. lia. }
  rewrite Hout. reflexivity.
Qed.

Lemma matchesAt_spec (pattern s : jsstring) :
  matchesAt pattern s = true
  <-> exists middle rest,
        s = middle ++ rest
        /\ map canonicalize middle = map canonicalize pattern.
Proof.
  revert s. induction pattern as [| p pattern IH]; intros s.
  - simpl. split; [| reflexivity].
    intros _. exists [], s. split; reflexivity.
  - destruct s as [| c s].
    + simpl. split; [discriminate |].
      intros (middle & rest & Hs & Hm).
      destruct middle; [discriminate | discriminate].
    + simpl. rewrite andb_true_iff, N.eqb_eq, IH. split.
      * intros (Hc & middle & rest & -> & Hm).
        exists (c :: middle), rest. split; [reflexivity |].
        simpl. rewrite Hm, Hc. reflexivity.
      * intros (middle & rest & Hs & Hm).
        destruct middle as [| m middle]; [discriminate |].
        simpl in Hs, Hm. injection Hs as -> ->. injection Hm as Hc Hm.
        split; [symmetry; exact Hc |].
        exists middle, rest. split; [reflexivity | exact Hm].
Qed.

Lemma testIgnoreCase_spec (pattern s : jsstring) :
  testIgnoreCase pattern s = true <-> occursIgnoringCase pattern s.
Proof.
  unfold occursIgnoringCase.
  induction s as [| c s IH].
  - simpl. rewrite orb_false_r, matchesAt_spec. split.
    + intros (middle & rest & Hs & Hm). exists [], middle, rest. auto.
    + intros (before & middle & rest & Hs & Hm).
      destruct before; [| discriminate]. exists middle, rest. auto.
  - cbn [testIgnoreCase]. rewrite orb_true_iff, matchesAt_spec, IH. split.
    + intros [(middle & rest & Hs & Hm) | (before & middle & rest & Hs & Hm)].
      * exists [], middle, rest. auto.
      * exists (c :: before), middle, rest. rewrite Hs. auto.
    + intros (before & middle & rest & Hs & Hm).
      destruct before as [| b before].
      * left. exists middle, rest. auto.
      * right. simpl in Hs. injection Hs as -> ->.
        exists before, middle, rest. auto.
Qed.

Lemma matchesAt_canonical (pattern s : jsstring) :
  matchesAt pattern (map canonicalize s) = matchesAt pattern s.
Proof.
  revert s. induction pattern as [| p pattern IH]; intros [| c s];
    try reflexivity.
  simpl. rewrite canonicalize_idempotent, IH. reflexivity.
Qed.

Lemma testIgnoreCase_canonical (pattern s : jsstring) :
  testIgnoreCase pattern (map canonicalize s) = testIgnoreCase pattern s.
Proof.
  induction s as [| c s IH].
  - reflexivity.
  - cbn [map testIgnoreCase]. rewrite IH.
    change (canonicalize c :: map canonicalize s)
      with (map canonicalize (c :: s)).
    rewrite matchesAt_canonical. reflexivity.
Qed.

(** X6: an error is retryable exactly when one of the eight patterns occurs,
    up to letter case, in its message or in its name; putting the message
    and the name in upper case does not change the verdict. *)
Theorem isRetryableError_occurrence (error : Error) :
  (isRetryableError error = true
   <-> exists pattern,
         In pattern retryablePatterns
         /\ (occursIgnoringCase pattern (message error)
             \/ occursIgnoringCase pattern (name error)))
  /\ isRetryableError
       {| name := map canonicalize (name error);
          message := map canonicalize (message error) |}
     = isRetryableError error.
Proof.
  split.
  - unfold isRetryableError. rewrite existsb_exists. split.
    + intros (pattern & Hin & Htest). exists pattern.
      split; [exact Hin |].
      apply orb_true_iff in Htest.
      destruct Htest as [H | H]; [left | right];
        apply testIgnoreCase_spec; exact H.
    + intros (pattern & Hin & Hocc). exists pattern.
      split; [exact Hin |]. apply orb_true_iff.
      destruct Hocc as [H | H]; [left | right];
        apply testIgnoreCase_spec; exact H.
  - unfold isRetryableError. cbn [name message].
    induction retryablePatterns as [| p ps IH]; [reflexivity |].
    cbn [existsb]. rewrite !testIgnoreCase_canonical, IH. reflexivity.
Qed.

End PatternFacts.

(** ** The priority queue *)

Module PriorityQueueFacts.

Import PriorityQueue.

Section Queue.

Variable T : Type.

Implicit Types (items : list (Entry T)) (entry : Entry T).

Lemma spliceBeforeLower_none entry items :
  spliceBeforeLower entry items = None
  <-> Forall (fun e => priority entry <= priority e) items.
Proof.
  induction items as [| first rest IH]; simpl.
  - split; [constructor | reflexivity].
  - destruct (Z.gtb_spec (priority entry) (priority first)) as [Hgt | Hle].
    + split; [discriminate |]. intros Hall. inversion Hall; subst. lia.
    + destruct (spliceBeforeLower entry rest).
      * split; [discriminate |]. intros Hall. inversion Hall; subst.
        apply IH in H2. discriminate.
      * split; [| reflexivity]. intros _. constructor; [lia |].
        apply IH. reflexivity.
Qed.

(** On a queue in priority order [enqueue] puts the new entry behind all
    entries of the same or a higher priority and before all lower ones. *)
Lemma enqueue_sorted_shape x p items :
  byPriority items ->
  enqueue x p items
  = filter (fun e => p <=? priority e) items
    ++ [{| item := x; priority := p |}]
    ++ filter (fun e => priority e <? p) items.
Proof.
  unfold enqueue, byPriority.
  set (entry := {| item := x; priority := p |}).
  induction 1 as [| first rest Hsorted IH Hall]; [reflexivity |].
  cbn [spliceBeforeLower filter]. change (priority entry) with p.
  destruct (Z.gtb_spec p (priority first)) as [Hgt | Hle].
  - assert (Hlow : Forall (fun e => priority e < p) (first :: rest)).
    { constructor; [lia |]. rewrite Forall_forall in *.
      intros e He. specialize (Hall e He). simpl in Hall. lia. }
    assert (Hnone : filter (fun e => p <=? priority e) (first :: rest) = []).
    { clear -Hlow. induction Hlow as [| e l He _ IHl]; [reflexivity |].
      simpl. destruct (Z.leb_spec p (priority e)); [lia | exact IHl]. }
    assert (Hsame : filter (fun e => priority e <? p) (first :: rest)
                    = first :: rest).
    { clear -Hlow. induction Hlow as [| e l He _ IHl]; [reflexivity |].
      simpl. destruct (Z.ltb_spec (priority e) p); [| lia].
      rewrite IHl. reflexivity. }
    cbn [filter] in Hnone, Hsame. rewrite Hnone, Hsame. reflexivity.
  - destruct (Z.leb_spec p (priority first)); [| lia].
    destruct (Z.ltb_spec (priority first) p); [lia |].
    change (priority entry) with p in IH.
    destruct (spliceBeforeLower entry rest) as [rest' |].
    + rewrite IH. reflexivity.
    + simpl. f_equal. exact IH.
Qed.

Lemma filter_sorted (f : Entry T -> bool) items :
  byPriority items -> byPriority (filter f items).
Proof.
  unfold byPriority. induction 1 as [| e l Hs IH Hall]; simpl.
  - constructor.
  - destruct (f e); [| exact IH].
    constructor; [exact IH |].
    rewrite Forall_forall in *. intros e' He'.
    apply filter_In in He'. apply Hall. apply He'.
Qed.

Lemma sorted_append (R : Entry T -> Entry T -> Prop) (front back : list (Entry T)) :
  StronglySorted R front -> StronglySorted R back ->
  (forall a b, In a front -> In b back -> R a b) ->
  StronglySorted R (front ++ back).
Proof.
  intros Hfront Hback Hcross.
  induction Hfront as [| e l Hs IH Hall]; [exact Hback |].
  simpl. constructor.
  - apply IH. intros a b Ha Hb. apply Hcross; [right; exact Ha | exact Hb].
  - apply Forall_app. split; [exact Hall |].
    rewrite Forall_forall. intros b Hb. apply Hcross; [left; reflexivity | exact Hb].
Qed.

Lemma enqueue_keeps_order x p items :
  byPriority items -> byPriority (enqueue x p items).
Proof.
  intros Hsorted. rewrite enqueue_sorted_shape by exact Hsorted.
  unfold byPriority.
  apply sorted_append.
  - apply filter_sorted. exact Hsorted.
  - cbn [app]. constructor.
    + apply (filter_sorted _ _ Hsorted).
    + rewrite Forall_forall. intros e He. apply filter_In in He.
      destruct He as [_ He]. apply Z.ltb_lt in He. simpl. lia.
  - intros a b Ha Hb. apply filter_In in Ha. destruct Ha as [_ Ha].
    apply Z.leb_le in Ha.
    destruct Hb as [<- | Hb]; [simpl; lia |].
    apply filter_In in Hb. destruct Hb as [_ Hb]. apply Z.ltb_lt in Hb. lia.
Qed.

Lemma reachable_sorted items : reachable items -> byPriority items.
Proof.
  induction 1 as [| x p items _ IH | items _ IH | items _ IH].
  - constructor.
  - apply enqueue_keeps_order. exact IH.
  - destruct items as [| e rest]; simpl; [constructor |].
    inversion IH; assumption.
  - constructor.
Qed.

Lemma enqueue_permutation x p items :
  Permutation ({| item := x; priority := p |} :: items) (enqueue x p items).
Proof.
  unfold enqueue. set (entry := {| item := x; priority := p |}).
  assert (Hsplice : forall items',
             spliceBeforeLower entry items = Some items' ->
             Permutation (entry :: items) items').
  { induction items as [| first rest IH]; intros items' Hs; [discriminate |].
    cbn [spliceBeforeLower] in Hs.
    destruct (priority entry >? priority first).
    - injection Hs as <-. apply Permutation_refl.
    - destruct (spliceBeforeLower entry rest) as [rest' |]; [| discriminate].
      injection Hs as <-.
      eapply perm_trans; [apply perm_swap |].
      apply perm_skip. apply IH. reflexivity. }
  destruct (spliceBeforeLower entry items) as [items' |].
  - apply Hsplice. reflexivity.
  - apply Permutation_cons_append.
Qed.

Lemma filter_filter (f g : Entry T -> bool) items :
  filter f (filter g items) = filter (fun e => f e && g e) items.
Proof.
  induction items as [| e l IH]; [reflexivity |].
  simpl. destruct (g e); simpl.
  - rewrite andb_true_r. destruct (f e); rewrite IH; reflexivity.
  - rewrite andb_false_r. exact IH.
Qed.

Lemma filter_none (f : Entry T -> bool) items :
  (forall e, In e items -> f e = false) -> filter f items = [].
Proof.
  induction items as [| e l IH]; intros Hnone; [reflexivity |].
  simpl. rewrite (Hnone e) by (left; reflexivity).
  apply IH. intros e' He'. apply Hnone. right. exact He'.
Qed.

(** [enqueue] leaves the order within every priority class as it was and
    puts the new entry at the end of its own class. *)
Lemma enqueue_ofPriority x p q items :
  byPriority items ->
  ofPriority q (enqueue x p items)
  = ofPriority q items
    ++ (if p =? q then [{| item := x; priority := p |}] else []).
Proof.
  intros Hsorted. rewrite enqueue_sorted_shape by exact Hsorted.
  unfold ofPriority. rewrite !filter_app, !filter_filter. cbn [filter].
  change (priority {| item := x; priority := p |}) with p.
  destruct (Z.eqb_spec p q) as [-> | Hne].
  - rewrite (filter_none (fun e => (priority e =? q) && (priority e <? q))).
    + rewrite app_nil_r. f_equal. apply filter_ext. intros e.
      destruct (Z.eqb_spec (priority e) q) as [-> | _]; [| reflexivity].
      rewrite Z.leb_refl. reflexivity.
    + intros e _. destruct (Z.eqb_spec (priority e) q) as [-> | _];
        [| reflexivity].
      rewrite Z.ltb_irrefl. reflexivity.
  - cbn [app]. rewrite app_nil_r.
    assert (Hcases : q < p \/ p < q) by lia.
    destruct Hcases as [Hlow | Hhigh].
    + rewrite (filter_none (fun e => (priority e =? q) && (p <=? priority e))).
      * cbn [app]. apply filter_ext. intros e.
        destruct (Z.eqb_spec (priority e) q) as [-> | _]; [| reflexivity].
        destruct (Z.ltb_spec q p); [reflexivity | lia].
      * intros e _. destruct (Z.eqb_spec (priority e) q) as [-> | _];
          [| reflexivity].
        destruct (Z.leb_spec p q); [lia | reflexivity].
    + rewrite (filter_none (fun e => (priority e =? q) && (priority e <? p))).
      * rewrite app_nil_r. apply filter_ext. intros e.
        destruct (Z.eqb_spec (priority e) q) as [-> | _]; [| reflexivity].
        destruct (Z.leb_spec p q); [reflexivity | lia].
      * intros e _. destruct (Z.eqb_spec (priority e) q) as [-> | _];
          [| reflexivity].
        destruct (Z.ltb_spec q p); [lia | reflexivity].
Qed.

Lemma enqueueAll_spec entries :
  forall items,
    byPriority items ->
    byPriority (enqueueAll entries items)
    /\ Permutation (items ++ entries) (enqueueAll entries items)
    /\ (forall q, ofPriority q (enqueueAll entries items)
                 = ofPriority q items ++ ofPriority q entries).
Proof.
  induction entries as [| [x p] entries IH]; intros items Hsorted.
  - simpl. rewrite app_nil_r. split; [exact Hsorted |].
    split; [apply Permutation_refl |].
    intros q. unfold ofPriority. simpl. rewrite app_nil_r. reflexivity.
  - cbn [enqueueAll fold_left item priority].
    destruct (IH (enqueue x p items) (enqueue_keeps_order x p items Hsorted))
      as (Hs & Hperm & Hclass).
    fold (enqueueAll entries (enqueue x p items)).
    split; [exact Hs |]. split.
    + eapply perm_trans; [| exact Hperm].
      change (items ++ {| item := x; priority := p |} :: entries)
        with (items ++ [{| item := x; priority := p |}] ++ entries).
      rewrite app_assoc. apply Permutation_app_tail.
      eapply perm_trans; [| apply enqueue_permutation].
      apply Permutation_sym, Permutation_cons_append.
    + intros q. rewrite Hclass, enqueue_ofPriority by exact Hsorted.
      rewrite <- app_assoc. f_equal.
      unfold ofPriority. cbn [filter priority].
      destruct (Z.eqb_spec p q); reflexivity.
Qed.

(** X7: where [enqueue] puts an entry: in a queue reached through the methods,
    behind every entry of the same or a higher priority and before every
    lower one; the size grows by one. *)
Theorem enqueue_behind_equal_priority x p items :
  reachable items ->
  enqueue x p items
  = filter (fun e => p <=? priority e) items
    ++ [{| item := x; priority := p |}]
    ++ filter (fun e => priority e <? p) items
  /\ size (enqueue x p items) = size items + 1.
Proof.
  intros Hreach. split.
  - apply enqueue_sorted_shape. apply reachable_sorted. exact Hreach.
  - unfold size.
    rewrite <- (Permutation_length (enqueue_permutation x p items)).
    simpl. lia.
Qed.

(** X8: what [dequeue] hands out: from a queue reached through the methods,
    the item at the front, whose priority no remaining entry exceeds;
    [peek] shows that same item; an empty queue gives [undefined] and stays
    empty. *)
Theorem dequeue_highest_priority items :
  reachable items ->
  match items with
  | [] => dequeue items = (None, []) /\ peek items = None
  | front :: rest =>
      dequeue items = (Some (item front), rest)
      /\ peek items = Some (item front)
      /\ Forall (fun e => priority e <= priority front) rest
      /\ size rest = size items - 1
  end.
Proof.
  intros Hreach. apply reachable_sorted in Hreach.
  destruct items as [| front rest]; [split; reflexivity |].
  inversion Hreach as [| ? ? _ Hall]; subst.
  repeat split; try reflexivity; [exact Hall |].
  unfold size. simpl List.length. lia.
Qed.

(** X9: enqueuing a sequence of entries into a new queue keeps exactly those
    entries, highest priority first, and entries of one priority in the
    order in which they were enqueued. *)
Theorem enqueueAll_stable_order (entries : list (Entry T)) :
  byPriority (enqueueAll entries [])
  /\ Permutation entries (enqueueAll entries [])
  /\ (forall q, ofPriority q (enqueueAll entries []) = ofPriority q entries).
Proof.
  destruct (enqueueAll_spec entries []) as (Hs & Hperm & Hclass).
  - constructor.
  - split; [exact Hs |]. split; [exact Hperm |]. exact Hclass.
Qed.

End Queue.

End PriorityQueueFacts.

(** ** The queue processor *)

Module MessageQueueFacts.

Import Retry MessageQueue.

Lemma numberOr_nonzero (n : option Z) (fallback : Z) :
  fallback <> 0 -> numberOr n fallback <> 0.
Proof.
  intros Hf. unfold numberOr. destruct n as [value |]; [| exact Hf].
  destruct (Z.eqb_spec value 0); assumption.
Qed.

Lemma numberOr_zero_fallback (value : Z) : numberOr (Some value) 0 = value.
Proof.
  unfold numberOr. destruct (Z.eqb_spec value 0); congruence.
Qed.

Lemma numberOr_keeps (value fallback : Z) :
  value <> 0 -> numberOr (Some value) fallback = value.
Proof.
  intros Hv. unfold numberOr. destruct (Z.eqb_spec value 0); congruence.
Qed.

(** X10: the delay before a failed message is sent again doubles from one
    second with every retry made and stays at thirty seconds from the
    fifth retry on. *)
Theorem requeueDelay_doubles_up_to_cap (retries : Z) :
  0 <= retries ->
  (1000 <= requeueDelay retries <= 30000)%Q
  /\ (forall later, retries <= later ->
                    (requeueDelay retries <= requeueDelay later)%Q)
  /\ (retries <= 4 -> (requeueDelay retries == 1000 * 2 ^ retries)%Q)
  /\ (5 <= retries -> (requeueDelay retries == 30000)%Q).
Proof.
  intros Hnonneg. unfold requeueDelay.
  assert (Hone : (1 <= 2 ^ retries)%Q)
    by (apply Qpower_1_le; [lra | exact Hnonneg]).
  split; [| split; [| split]].
  - split.
    + apply Q.min_glb; lra.
    + apply Q.le_min_r.
  - intros later Hlater. apply Q.min_le_compat_r.
    assert ((2 ^ retries <= 2 ^ later)%Q)
      by (apply Qpower_le_compat_l; [exact Hlater | lra]).
    lra.
  - intros Hsmall. apply Q.min_l.
    assert (Hpow : (2 ^ retries <= 2 ^ 4)%Q)
      by (apply Qpower_le_compat_l; [exact Hsmall | lra]).
    change (2 ^ 4)%Q with 16%Q in Hpow. lra.
  - intros Hbig. apply Q.min_r.
    assert (Hpow : (2 ^ 5 <= 2 ^ retries)%Q)
      by (apply Qpower_le_compat_l; [exact Hbig | lra]).
    change (2 ^ 5)%Q with 32%Q in Hpow. lra.
Qed.

Section Processor.

Variable Content : Type.
Variable Params : Type.
Variable Env : Type.
Variable queueSend : QueueMessage Content Params -> Env -> Outcome unit * Env.
Variable isoNow : Env -> jsstring.
Variable handlers : Handlers Content Params Env.
Variable hasAnalytics : bool.

Local Abbreviation process :=
  (processMessage Content Params Env handlers hasAnalytics).

(** What the [switch] does, by the handler it selects. *)
Lemma dispatch_runs (message : QueueMessage Content Params) (w : World Content Params Env) :
  match handlerFor Content Params Env handlers message with
  | Some handler =>
      dispatch Content Params Env handlers message w
      = call Content Params Env handler w
  | None =>
      exists w',
        dispatch Content Params Env handlers message w = (Fulfilled tt, w')
        /\ env w' = env w /\ timers w' = timers w
        /\ dataPoints w' = dataPoints w
  end.
Proof.
  unfold handlerFor, dispatch.
  destruct (body message) as [url p | pin c m | pin t | op ps | name].
  - destruct (processUrl _ _ _ handlers); simpl;
      [reflexivity | eexists; repeat split].
  - destruct (generateImage _ _ _ handlers); simpl;
      [reflexivity | eexists; repeat split].
  - destruct (schedulePin _ _ _ handlers); simpl;
      [reflexivity | eexists; repeat split].
  - destruct (cleanup _ _ _ handlers); simpl;
      [reflexivity | eexists; repeat split].
  - eexists. repeat split.
Qed.

Lemma processMessage_runs
    (message : QueueMessage Content Params) (w : World Content Params Env) :
  match handlerFor Content Params Env handlers message with
  | None =>
      exists w',
        process message w = (Fulfilled tt, w')
        /\ env w' = env w /\ timers w' = timers w
        /\ dataPoints w' = dataPoints w
  | Some handler =>
      match handler (env w) with
      | (Fulfilled _, e') =>
          exists w',
            process message w = (Fulfilled tt, w')
            /\ env w' = e' /\ timers w' = timers w
            /\ dataPoints w' = dataPoints w
      | (Rejected reason, e') =>
          exists w',
            process message w = (Rejected reason, w')
            /\ env w' = e'
            /\ (if numberOr (retryCount message) 0
                   <? numberOr (maxRetries message) 3
                then
                  timers w'
                  = {| delay := requeueDelay (numberOr (retryCount message) 0);
                       retryMessage :=
                         {| body := body message;
                            retryCount :=
                              Some (numberOr (retryCount message) 0 + 1);
                            maxRetries := maxRetries message;
                            createdAt := createdAt message |} |}
                    :: timers w
                  /\ dataPoints w' = dataPoints w
                else
                  timers w' = timers w
                  /\ dataPoints w'
                     = (if hasAnalytics then [messageType message] else [])
                       ++ dataPoints w)
      end
  end.
Proof.
  pose proof (dispatch_runs message
                {| env := env w;
                   console := ConsoleLog (lit "Processing queue message: "
                                          ++ messageType message)
                              :: console w;
                   timers := timers w; dataPoints := dataPoints w |})
    as Hdispatch.
  unfold processMessage.
  cbv beta iota zeta delta [bind tryCatch consoleLine setTimeout
                            writeDataPoint throw ret].
  destruct (handlerFor Content Params Env handlers message) as [handler |].
  - rewrite Hdispatch. unfold call. cbn [env console timers dataPoints].
    destruct (handler (env w)) as [[[] | reason] e'].
    + eexists. split; [reflexivity |]. repeat split.
    + destruct (numberOr (retryCount message) 0
                <? numberOr (maxRetries message) 3).
      * eexists. split; [reflexivity |]. repeat split.
      * destruct hasAnalytics; eexists; (split; [reflexivity |]);
          repeat split.
  - destruct Hdispatch as (w1 & Hrun & He & Ht & Hd).
    rewrite Hrun.
    eexists. split; [reflexivity |]. simpl. auto.
Qed.

(** X11: [processMessage] settles as the selected handler does and rethrows
    what it threw; a message without a registered handler, or of an unknown
    type, counts as processed and touches nothing.  After a failure one
    timer is set while retries are left, none otherwise, and the failure is
    reported to analytics only when retries are used up. *)
Theorem processMessage_settles_like_handler
    (message : QueueMessage Content Params) (w : World Content Params Env) :
  match handlerFor Content Params Env handlers message with
  | None =>
      exists w',
        process message w = (Fulfilled tt, w')
        /\ env w' = env w /\ timers w' = timers w
        /\ dataPoints w' = dataPoints w
  | Some handler =>
      match handler (env w) with
      | (Fulfilled _, e') =>
          exists w',
            process message w = (Fulfilled tt, w')
            /\ env w' = e' /\ timers w' = timers w
            /\ dataPoints w' = dataPoints w
      | (Rejected reason, e') =>
          exists w',
            process message w = (Rejected reason, w')
            /\ env w' = e'
            /\ (if numberOr (retryCount message) 0
                   <? numberOr (maxRetries message) 3
                then
                  timers w'
                  = {| delay := requeueDelay (numberOr (retryCount message) 0);
                       retryMessage :=
                         {| body := body message;
                            retryCount :=
                              Some (numberOr (retryCount message) 0 + 1);
                            maxRetries := maxRetries message;
                            createdAt := createdAt message |} |}
                    :: timers w
                  /\ dataPoints w' = dataPoints w
                else
                  timers w' = timers w
                  /\ dataPoints w'
                     = (if hasAnalytics then [messageType message] else [])
                       ++ dataPoints w)
      end
  end.
Proof. apply processMessage_runs. Qed.

(** X12: a message that fails while retries are left is handed back to the
    queue by the timer's callback with the same body, its defaults filled
    in and one retry less left; a failing message with no retry left sets
    no timer, so a message is sent again at most [maxRetries] times, 3
    times when [maxRetries] is absent or 0. *)
Theorem retries_run_out (message : QueueMessage Content Params)
    (w : World Content Params Env)
    (handler : Env -> Outcome unit * Env) (reason : Thrown) (e' : Env) :
  handlerFor Content Params Env handlers message = Some handler ->
  handler (env w) = (Rejected reason, e') ->
  (retriesLeft message = 0 -> timers (snd (process message w)) = timers w)
  /\ (0 < retriesLeft message ->
      exists timer,
        timers (snd (process message w)) = timer :: timers w
        /\ forall v : World Content Params Env,
             let sent := withDefaults (isoNow (env v)) (retryMessage timer) in
             timerCallback Content Params Env queueSend isoNow timer v
             = call Content Params Env (queueSend sent) v
             /\ body sent = body message
             /\ retriesLeft sent = retriesLeft message - 1)
  /\ (0 <= retriesLeft message)
  /\ (numberOr (retryCount message) 0 = 0 ->
      maxRetries message = None \/ maxRetries message = Some 0 ->
      retriesLeft message = 3).
Proof.
  intros Hsel Hfail.
  pose proof (processMessage_runs message w) as Hrun.
  rewrite Hsel, Hfail in Hrun.
  destruct Hrun as (w' & Hrun & _ & Htimers).
  rewrite Hrun. cbn [snd]. unfold retriesLeft.
  set (retries := numberOr (retryCount message) 0) in *.
  set (limit := numberOr (maxRetries message) 3) in *.
  assert (Hlimit : limit <> 0) by (apply numberOr_nonzero; lia).
  split; [| split; [| split]].
  - intros Hnone. destruct (Z.ltb_spec retries limit); [lia |].
    apply Htimers.
  - intros Hsome. destruct (Z.ltb_spec retries limit); [| lia].
    destruct Htimers as [Htimers _].
    eexists. split; [exact Htimers |].
    intros v. cbn [retryMessage]. split; [reflexivity |].
    split; [reflexivity |].
    unfold withDefaults. cbn [retryCount maxRetries].
    rewrite !numberOr_zero_fallback.
    fold limit. rewrite (numberOr_keeps limit 3 Hlimit). lia.
  - lia.
  - intros Hzero Hdefault.
    assert (Hthree : limit = 3)
      by (subst limit; destruct Hdefault as [-> | ->]; reflexivity).
    lia.
Qed.

(** X13: what [sendMessage] hands to the queue: the message with its body
    untouched and the three optional fields filled in, [maxRetries] never
    0 and [createdAt] never empty; sending such a message again changes
    none of its fields, so a retried message keeps its first
    [createdAt]. *)
Theorem sendMessage_fills_defaults (message : QueueMessage Content Params)
    (w : World Content Params Env) :
  isoNow (env w) <> [] ->
  sendMessage Content Params Env queueSend isoNow message w
  = call Content Params Env
      (queueSend (withDefaults (isoNow (env w)) message)) w
  /\ body (withDefaults (isoNow (env w)) message) = body message
  /\ (exists retries limit created,
        retryCount (withDefaults (isoNow (env w)) message) = Some retries
        /\ maxRetries (withDefaults (isoNow (env w)) message) = Some limit
        /\ createdAt (withDefaults (isoNow (env w)) message) = Some created
        /\ limit <> 0 /\ created <> [])
  /\ (forall later,
        withDefaults later (withDefaults (isoNow (env w)) message)
        = withDefaults (isoNow (env w)) message).
Proof.
  intros Hnow. split; [reflexivity |]. split; [reflexivity |]. split.
  - eexists. eexists. eexists. repeat split.
    + apply numberOr_nonzero. lia.
    + unfold stringOr. destruct (createdAt message) as [[| c rest] |];
        try exact Hnow; discriminate.
  - intros later. unfold withDefaults. cbn [body retryCount maxRetries createdAt].
    f_equal.
    + rewrite numberOr_zero_fallback. reflexivity.
    + rewrite numberOr_keeps by (apply numberOr_nonzero; lia). reflexivity.
    + f_equal. unfold stringOr at 1.
      destruct (stringOr (createdAt message) (isoNow (env w))) as [| c rest] eqn:Hs;
        [| reflexivity].
      exfalso. unfold stringOr in Hs.
      destruct (createdAt message) as [[| c rest] |];
        try (apply Hnow; exact Hs); discriminate.
Qed.

End Processor.

End MessageQueueFacts.

(** ** More on the time-slot allocator *)

Module AllocatorMore.

Import Scheduler SchedulerSpec SearchSpec DateFacts NextOptimalTimeFacts
  AllocatorFacts.

(** Whatever the order of the hours, the next optimal time is an optimal
    slot strictly after [from]. *)
Lemma getNextOptimalTime_slot_later (this : PostizScheduler) (from : Z) :
  (forall h, In h (optimalHours this) -> 0 <= h <= 23) ->
  isOptimalSlot this (getNextOptimalTime this from)
  /\ from < getNextOptimalTime this from.
Proof.
  intros Hrange.
  destruct (startOfDay_multiple from) as [k Hk].
  pose proof (getHours_range from) as Hh.
  pose proof (mod_hour_range from) as Hm.
  pose proof (instant_split from) as Hsplit. rewrite Hk in Hsplit.
  assert (Hr : getNextOptimalTime this from
               = match find (fun hour => hour >? getHours from)
                              (optimalHours this) with
                 | Some hour => k * msPerDay + hour * msPerHour
                 | None => (k + 1) * msPerDay
                           + firstOptimalHour this * msPerHour
                 end).
  { rewrite Hsplit at 1. apply getNextOptimalTime_parts; assumption. }
  rewrite Hr. clear Hr.
  destruct (find (fun hour => hour >? getHours from) (optimalHours this))
    as [x |] eqn:Hfind.
  - apply find_some in Hfind. destruct Hfind as [Hin Hx].
    destruct (Z.gtb_spec x (getHours from)) as [Hgt |]; [| discriminate].
    pose proof (Hrange x Hin) as Hxr.
    destruct (compose_parts k x 0) as (_ & Hhour & Hzero);
      [lia | unfold msPerHour; lia |].
    rewrite Z.add_0_r in Hhour, Hzero.
    split; [split; [exact Hzero | rewrite Hhour; exact Hin] |].
    unfold msPerDay, msPerHour in *. lia.
  - assert (Hfirst : In (firstOptimalHour this) (optimalHours this))
      by (left; reflexivity).
    pose proof (Hrange _ Hfirst) as Hfr.
    destruct (compose_parts (k + 1) (firstOptimalHour this) 0)
      as (_ & Hhour & Hzero); [lia | unfold msPerHour; lia |].
    rewrite Z.add_0_r in Hhour, Hzero.
    split; [split; [exact Hzero | rewrite Hhour; exact Hfirst] |].
    unfold msPerDay, msPerHour in *. lia.
Qed.

Lemma fallback_slot_later (this : PostizScheduler) (now : Z) :
  (forall h, In h (optimalHours this) -> 0 <= h <= 23) ->
  isOptimalSlot this (setHours0 (addDays now 1) (firstOptimalHour this))
  /\ now < setHours0 (addDays now 1) (firstOptimalHour this).
Proof.
  intros Hrange.
  destruct (startOfDay_multiple now) as [k Hk].
  pose proof (getHours_range now) as Hh.
  pose proof (mod_hour_range now) as Hm.
  pose proof (instant_split now) as Hsplit. rewrite Hk in Hsplit.
  assert (Hfirst : In (firstOptimalHour this) (optimalHours this))
    by (left; reflexivity).
  pose proof (Hrange _ Hfirst) as Hfr.
  assert (Hday : startOfDay (addDays now 1) = (k + 1) * msPerDay).
  { unfold addDays, shiftDate. rewrite Hsplit at 1.
    replace (k * msPerDay + getHours now * msPerHour + now mod msPerHour
             + 1 * msPerDay)
      with ((k + 1) * msPerDay + getHours now * msPerHour
            + now mod msPerHour) by lia.
    apply compose_parts; assumption. }
  unfold setHours0. rewrite Hday.
  destruct (compose_parts (k + 1) (firstOptimalHour this) 0)
    as (_ & Hhour & Hzero); [lia | unfold msPerHour; lia |].
  rewrite Z.add_0_r in Hhour, Hzero.
  split; [split; [exact Hzero | rewrite Hhour; exact Hfirst] |].
  unfold msPerDay, msPerHour in *. lia.
Qed.

Section Allocator.

Variable Env : Type.
Variable db : Z -> Env -> Outcome (list GeneratedPin) * Env.
Variable clock : Env -> Z.

Local Abbreviation available := (isTimeSlotAvailable Env db).
Local Abbreviation search := (searchLoop Env db).

(** What the loop returns is one of its candidates, and it costs between
    one lookup and as many as there are rounds left. *)
Lemma searchLoop_invariant (this : PostizScheduler) (P : Z -> Prop)
    (fuel : nat) :
  (forall t, P t -> P (getNextOptimalTime this (addHours t 1))) ->
  forall (attempts target : Z) (w w' : World Env) (t : Z),
    P target ->
    0 <= attempts ->
    search this fuel attempts target w = (Fulfilled (Some (Some t)), w') ->
    P t
    /\ Z.of_nat (lookupCount w) < Z.of_nat (lookupCount w')
       <= Z.of_nat (lookupCount w) + (50 - attempts).
Proof.
  intros Hstep. induction fuel as [| fuel IH];
    intros attempts target w w' t Htarget Hnonneg Hrun.
  - discriminate.
  - destruct (Z.ltb_spec attempts 50) as [Hlt | Hge].
    + destruct (isTimeSlotAvailable_total Env db this target w)
        as (b & w1 & Hb & Hc).
      destruct b.
      * rewrite (searchLoop_available Env db this fuel attempts target w w1
                   Hlt Hb) in Hrun.
        injection Hrun as <- <-. split; [exact Htarget | lia].
      * rewrite (searchLoop_unavailable Env db this fuel attempts target w w1
                   Hlt Hb) in Hrun.
        assert (Hnext : 0 <= attempts + 1) by lia.
        destruct (IH _ _ _ _ _ (Hstep _ Htarget) Hnext Hrun)
          as [Ht Hcount].
        split; [exact Ht | lia].
    + cbn [searchLoop] in Hrun. apply Z.ltb_ge in Hge. rewrite Hge in Hrun.
      discriminate.
Qed.

Lemma searchLoop_bound_lookups (this : PostizScheduler) (fuel : nat) :
  forall (attempts target : Z) (w w' : World Env),
    0 <= attempts < 50 ->
    search this fuel attempts target w = (Fulfilled (Some None), w') ->
    Z.of_nat (lookupCount w') = Z.of_nat (lookupCount w) + (50 - attempts).
Proof.
  induction fuel as [| fuel IH]; intros attempts target w w' Hrange Hrun.
  - discriminate.
  - destruct (isTimeSlotAvailable_total Env db this target w)
      as (b & w1 & Hb & Hc).
    destruct b.
    + rewrite (searchLoop_available Env db this fuel attempts target w w1
                 ltac:(lia) Hb) in Hrun. discriminate.
    + rewrite (searchLoop_unavailable Env db this fuel attempts target w w1
                 ltac:(lia) Hb) in Hrun.
      destruct (Z.eq_dec attempts 49) as [-> | Hne].
      * destruct fuel as [| fuel]; [discriminate |].
        cbn [searchLoop] in Hrun. change (49 + 1 <? 50) with false in Hrun.
        injection Hrun as <-. lia.
      * assert (Hnext : 0 <= attempts + 1 < 50) by lia.
        rewrite (IH _ _ _ _ Hnext Hrun). lia.
Qed.

(** X14: whatever the storage layer answers, [findOptimalPostingTime] returns
    an optimal slot strictly after the clock reading it started from, and
    makes between 1 and 50 lookups. *)
Theorem findOptimalPostingTime_future_slot (this : PostizScheduler)
    (w : World Env) :
  (forall h, In h (optimalHours this) -> 0 <= h <= 23) ->
  exists t w',
    findOptimalPostingTime Env db clock this w = (Fulfilled (Some t), w')
    /\ isOptimalSlot this t
    /\ clock (env w) < t
    /\ Z.of_nat (lookupCount w) + 1 <= Z.of_nat (lookupCount w')
       <= Z.of_nat (lookupCount w) + 50.
Proof.
  intros Hrange.
  set (now := clock (env w)).
  set (P := fun t => isOptimalSlot this t /\ now < t).
  assert (Hstep : forall t, P t ->
                            P (getNextOptimalTime this (addHours t 1))).
  { intros t [_ Hlater].
    destruct (getNextOptimalTime_slot_later this (addHours t 1) Hrange)
      as [Hslot Hnext].
    split; [exact Hslot |]. unfold addHours, msPerHour in *. lia. }
  assert (Hfirst : P (getNextOptimalTime this now))
    by (apply getNextOptimalTime_slot_later; exact Hrange).
  unfold findOptimalPostingTime, bind, newDate. fold now.
  destruct (searchLoop_total Env db this 51 0 (getNextOptimalTime this now) w)
    as (found & w' & Hrun); [lia | lia |].
  fold (searchLoop Env db) in Hrun |- *. rewrite Hrun.
  destruct found as [t |].
  - destruct (searchLoop_invariant this P 51 Hstep _ _ _ _ _ Hfirst
                (Z.le_refl 0) Hrun) as [[Hslot Hlater] Hcount].
    exists t, w'. split; [reflexivity |]. split; [exact Hslot |].
    split; [exact Hlater | lia].
  - assert (Hzero : 0 <= 0 < 50) by lia.
    pose proof (searchLoop_bound_lookups this 51 _ _ _ _ Hzero Hrun)
      as Hcount.
    destruct (fallback_slot_later this now Hrange) as [Hslot Hlater].
    eexists. exists w'. split; [reflexivity |]. split; [exact Hslot |].
    split; [exact Hlater | lia].
Qed.

(** With a storage layer that always answers with the same pins, the
    search returns the first candidate that no pin is within an hour of. *)
Lemma searchLoop_first_free (this : PostizScheduler)
    (pins : list GeneratedPin) (i : nat) :
  (forall limit e, db limit e = (Fulfilled pins, e)) ->
  forall (fuel : nat) (attempts target : Z) (w : World Env),
    (i < fuel)%nat ->
    attempts + Z.of_nat i < 50 ->
    (forall j, (j < i)%nat ->
               isFree pins (candidateFrom this target j) = false) ->
    isFree pins (candidateFrom this target i) = true ->
    search this fuel attempts target w
    = (Fulfilled (Some (Some (candidateFrom this target i))),
       {| env := env w; lookupCount := (lookupCount w + S i)%nat;
          errorLog := errorLog w |}).
Proof.
  intros Hsteady.
  induction i as [| i IH]; intros fuel attempts target w Hfuel Hmax Hbusy Hfree.
  - destruct fuel as [| fuel]; [lia |].
    rewrite (searchLoop_available Env db this fuel attempts target w
               {| env := env w; lookupCount := S (lookupCount w);
                  errorLog := errorLog w |}); [| lia |].
    + cbn [candidateFrom]. rewrite Nat.add_1_r. reflexivity.
    + rewrite isTimeSlotAvailable_runs, Hsteady.
      cbn [candidateFrom] in Hfree. unfold isFree in Hfree.
      rewrite Hfree. reflexivity.
  - destruct fuel as [| fuel]; [lia |].
    rewrite (searchLoop_unavailable Env db this fuel attempts target w
               {| env := env w; lookupCount := S (lookupCount w);
                  errorLog := errorLog w |}); [| lia |].
    + rewrite IH; try lia.
      * cbn [candidateFrom env lookupCount errorLog].
        f_equal. f_equal. lia.
      * intros j Hj. apply (Hbusy (S j)). lia.
      * exact Hfree.
    + rewrite isTimeSlotAvailable_runs, Hsteady.
      pose proof (Hbusy 0%nat (Nat.lt_0_succ i)) as Hzero.
      cbn [candidateFrom] in Hzero. unfold isFree in Hzero.
      rewrite Hzero. reflexivity.
Qed.

(** X15: with a storage layer that always answers with the same pins,
    [findOptimalPostingTime] returns the first of its first 50 candidates
    that no pin is within an hour of, after one lookup for each candidate
    it looked at. *)
Theorem findOptimalPostingTime_first_free (this : PostizScheduler)
    (pins : list GeneratedPin) (w : World Env) (i : nat) :
  (forall limit e, db limit e = (Fulfilled pins, e)) ->
  (i < 50)%nat ->
  (forall j, (j < i)%nat ->
             isFree pins (candidate this (clock (env w)) j) = false) ->
  isFree pins (candidate this (clock (env w)) i) = true ->
  findOptimalPostingTime Env db clock this w
  = (Fulfilled (Some (candidate this (clock (env w)) i)),
     {| env := env w; lookupCount := (lookupCount w + S i)%nat;
        errorLog := errorLog w |}).
Proof.
  intros Hsteady Hi Hbusy Hfree.
  unfold findOptimalPostingTime, bind, newDate.
  fold (searchLoop Env db).
  rewrite (searchLoop_first_free this pins i Hsteady 51 0
             (getNextOptimalTime this (clock (env w))) w);
    try assumption; try lia.
  reflexivity.
Qed.

End Allocator.

End AllocatorMore.

(** ** More on the schedule statistics *)

Module StatsMore.

Import Scheduler SchedulerSpec BackoffFacts AllocatorFacts StatsFacts.

Lemma consecutiveGapHours_nonneg (instants : list Z) :
  Sorted Z.le instants -> (0 <= consecutiveGapHours instants)%Q.
Proof.
  induction 1 as [| a l Hsorted IH Hhead]; [simpl; lra |].
  destruct l as [| b l]; [simpl; lra |].
  change (consecutiveGapHours (a :: b :: l))
    with (inject_Z (b - a) / inject_Z msPerHour
          + consecutiveGapHours (b :: l))%Q.
  inversion Hhead as [| ? ? Hab]; subst.
  assert (Hgap : (0 <= inject_Z (b - a) / inject_Z msPerHour)%Q).
  { apply Qle_shift_div_l; [reflexivity |].
    rewrite Qmult_0_l. change 0%Q with (inject_Z 0).
    rewrite <- Zle_Qle. lia. }
  lra.
Qed.

Lemma meanGapHours_nonneg (instants : list Z) :
  Sorted Z.le instants -> (0 <= meanGapHours instants)%Q.
Proof.
  intros Hsorted. unfold meanGapHours.
  destruct (Nat.ltb_spec (List.length instants) 2) as [_ | Hlong]; [lra |].
  apply Qle_shift_div_l.
  - change 0%Q with (inject_Z 0). rewrite <- Zlt_Qlt. lia.
  - rewrite Qmult_0_l. apply consecutiveGapHours_nonneg. exact Hsorted.
Qed.

Lemma averageGap_nonneg (pins : list GeneratedPin) :
  (0 <= averageGap pins)%Q.
Proof.
  rewrite averageGap_is_mean. unfold roundTwoDecimals.
  pose proof (meanGapHours_nonneg _
                (sortAscending_sorted (scheduledInstants pins))) as Hmean.
  assert (Hround : 0 <= mathRound
                          (meanGapHours
                             (sortAscending (scheduledInstants pins)) * 100))
    by (apply mathRound_nonneg; lra).
  apply Qle_shift_div_l; [reflexivity |].
  rewrite Qmult_0_l. change 0%Q with (inject_Z 0).
  rewrite <- Zle_Qle. exact Hround.
Qed.

Lemma filter_count_le {A : Type} (f : A -> bool) (l : list A) :
  0 <= Z.of_nat (List.length (filter f l)) <= Z.of_nat (List.length l).
Proof.
  pose proof (filter_length_le f l). lia.
Qed.

(** X16: [getScheduleStats] never rejects.  Its counts of today and of this
    week are between 0 and [totalScheduled], the average gap is never
    negative, and when the lookup fails every figure is 0 and the next
    slot is the clock reading. *)
Theorem getScheduleStats_never_rejects (Env : Type)
    (db : Z -> Env -> Outcome (list GeneratedPin) * Env) (clock : Env -> Z)
    (this : PostizScheduler) (w : World Env) :
  exists stats w',
    getScheduleStats Env db clock this w = (Fulfilled (Some stats), w')
    /\ 0 <= postsToday stats <= totalScheduled stats
    /\ 0 <= postsThisWeek stats <= totalScheduled stats
    /\ (0 <= averageGapHours stats)%Q
    /\ match db 200 (env w) with
       | (Fulfilled pins, _) =>
           totalScheduled stats = Z.of_nat (List.length pins)
       | (Rejected _, e1) =>
           totalScheduled stats = 0
           /\ (averageGapHours stats == 0)%Q
           /\ nextAvailableSlot stats = clock e1
       end.
Proof.
  destruct (db 200 (env w)) as [[pins | reason] e1] eqn:Hdb.
  - destruct (getScheduleStats_success Env db clock this w pins e1 Hdb)
      as (slot & w' & Hrun).
    eexists. exists w'. split; [exact Hrun |]. cbn.
    split; [apply filter_count_le |].
    split; [apply filter_count_le |].
    split; [apply averageGap_nonneg | reflexivity].
  - rewrite (getScheduleStats_failure Env db clock this w reason e1 Hdb).
    eexists. eexists. split; [reflexivity |]. cbn.
    repeat split; try lia; try lra; reflexivity.
Qed.

End StatsMore.

(** ** How the retry executor settles *)

Module RetryVerdict.

Import Retry RetryFacts.

Section Verdict.

Variable T : Type.
Variable St : Type.
Variable operation : St -> Outcome T * St.
Variable random : nat -> Q.
Variable config : RetryConfig.
Variable context : jsstring.

Local Abbreviation loop :=
  (withRetryLoop T St operation random config context).

(** However the operation behaves, the loop ends with a value the
    operation returned, or after the last allowed attempt with the error
    that attempt threw. *)
Lemma withRetryLoop_verdict (fuel : nat) :
  forall (attempt : Z) (lastError : option Error) (w : World St),
    attempt <= maxAttempts config ->
    maxAttempts config - attempt < Z.of_nat fuel ->
    exists exit w',
      loop fuel attempt lastError w = (Fulfilled (Some exit), w')
      /\ Z.of_nat (callCount w) < Z.of_nat (callCount w')
         <= Z.of_nat (callCount w) + (maxAttempts config - attempt + 1)
      /\ match exit with
         | Returned v => exists s, fst (operation s) = Fulfilled v
         | LeftLoop last =>
             exists s t, fst (operation s) = Rejected t
                         /\ last = Some (toError t)
                         /\ Z.of_nat (callCount w')
                            = Z.of_nat (callCount w)
                              + (maxAttempts config - attempt + 1)
         end.
Proof.
  induction fuel as [| fuel IH]; intros attempt lastError w Hle Hfuel; [lia |].
  destruct (outcomeAt T St operation 0%nat (opState w)) as [v | t] eqn:Hfirst.
  - rewrite (withRetryLoop_returns T St operation random config context
               fuel attempt lastError w v Hle Hfirst).
    eexists. eexists. split; [reflexivity |]. cbn [invoked callCount].
    split; [lia |]. exists (opState w). exact Hfirst.
  - destruct (Z.eq_dec attempt (maxAttempts config)) as [-> | Hne].
    + rewrite (withRetryLoop_breaks T St operation random config context
                 fuel lastError w t Hfirst).
      eexists. eexists. split; [reflexivity |]. cbn [invoked callCount].
      split; [lia |]. exists (opState w), t.
      split; [exact Hfirst |]. split; [reflexivity | lia].
    + destruct (withRetryLoop_retries T St operation random config context
                  fuel attempt lastError w t)
        as (w1 & Hstep & _ & Hc & _); [lia | exact Hfirst |].
      rewrite Hstep.
      destruct (IH (attempt + 1) (Some (toError t)) w1)
        as (exit & w' & Hrun & Hcount & Hexit); [lia | lia |].
      exists exit, w'. split; [exact Hrun |]. split; [lia |].
      destruct exit as [v | last]; [exact Hexit |].
      destruct Hexit as (s & t' & Hs & Hlast & Hall).
      exists s, t'. split; [exact Hs |]. split; [exact Hlast | lia].
Qed.

Lemma withRetry_verdict (w : World St) :
  1 <= maxAttempts config ->
  exists result w',
    withRetry T St operation random config context w = (result, w')
    /\ Z.of_nat (callCount w) < Z.of_nat (callCount w')
       <= Z.of_nat (callCount w) + maxAttempts config
    /\ match result with
       | Fulfilled (Some v) => exists s, fst (operation s) = Fulfilled v
       | Fulfilled None => False
       | Rejected reason =>
           exists s t,
             fst (operation s) = Rejected t
             /\ reason = ThrownError
                           (newError (exhaustedMessage config context
                                        (toError t)))
             /\ Z.of_nat (callCount w')
                = Z.of_nat (callCount w) + maxAttempts config
       end.
Proof.
  intros Hmax.
  destruct (withRetryLoop_verdict (S (Z.to_nat (maxAttempts config))) 1 None w)
    as (exit & w' & Hrun & Hcount & Hexit); [lia | lia |].
  unfold withRetry, bind. rewrite Hrun.
  destruct exit as [v | last].
  - eexists. exists w'. split; [reflexivity |]. split; [lia | exact Hexit].
  - destruct Hexit as (s & t & Hs & -> & Hall).
    eexists. exists w'. split; [reflexivity |]. split; [lia |].
    exists s, t. split; [exact Hs |]. split; [reflexivity | lia].
Qed.

End Verdict.

End RetryVerdict.

(** ** Posting a pin *)

Module PostingFacts.

Import Retry Scheduler SchedulerSpec Posting RetryFacts RetryVerdict
  AllocatorFacts.

Section Poster.

Variable Env : Type.
Variable db : Z -> Env -> Outcome (list GeneratedPin) * Env.
Variable clock : Env -> Z.
Variable fetchPost : PostRequest -> Env -> Outcome Response * Env.
Variable dbUpdatePin : Z -> PinPatch -> Env -> Outcome unit * Env.
Variable random : nat -> Q.

Local Abbreviation create :=
  (createPostizPost Env fetchPost random).
Local Abbreviation schedule :=
  (schedulePin Env db clock fetchPost dbUpdatePin random).

(** One request only ever returns a success. *)
Lemma postOnce_fulfils_success (content : OptimizedContent)
    (imageUrl : jsstring) (scheduledTime : Z) (e : Env) (r : PostResult) :
  fst (postOnce Env fetchPost content imageUrl scheduledTime e) = Fulfilled r ->
  postSuccess r = true /\ postError r = None.
Proof.
  unfold postOnce.
  destruct (fetchPost _ e) as [[response | reason] e']; [| discriminate].
  destruct (negb (ok response)); [discriminate |].
  destruct (json response) as [data | reason]; [| discriminate].
  destruct (negb (bodySuccess data)); [discriminate |].
  cbn [fst]. intros H. injection H as <-. split; reflexivity.
Qed.

(** How [createPostizPost] settles. *)
Lemma createPostizPost_verdict (content : OptimizedContent)
    (imageUrl : jsstring) (scheduledTime : Z) (w : Posting.World Env) :
  exists result w',
    create content imageUrl scheduledTime w = (result, w')
    /\ Z.of_nat (fetchCalls w) < Z.of_nat (fetchCalls w')
       <= Z.of_nat (fetchCalls w) + 3
    /\ updates w' = updates w
    /\ lookupCount (sched w') = lookupCount (sched w)
    /\ match result with
       | Fulfilled (Some r) => postSuccess r = true /\ postError r = None
       | Fulfilled None => False
       | Rejected reason =>
           exists last,
             reason = ThrownError
                        (newError (lit "createPostizPost failed after 3 attempts. Last error: "
                                   ++ last))
             /\ Z.of_nat (fetchCalls w') = Z.of_nat (fetchCalls w) + 3
       end.
Proof.
  unfold createPostizPost, liftRetry.
  destruct (withRetry_verdict PostResult Env
              (postOnce Env fetchPost content imageUrl scheduledTime)
              random API_RETRY_CONFIG (lit "createPostizPost")
              {| opState := env (sched w); callCount := fetchCalls w;
                 drawCount := draws w; warnings := retryWarnings w;
                 sleeps := retrySleeps w |})
    as (result & rw & Hrun & Hcount & Hresult); [simpl; lia |].
  rewrite Hrun. eexists. eexists. split; [reflexivity |].
  cbn [fetchCalls updates sched lookupCount callCount] in *.
  change (maxAttempts API_RETRY_CONFIG) with 3 in Hcount.
  split; [exact Hcount |]. split; [reflexivity |]. split; [reflexivity |].
  destruct result as [[r |] | reason].
  - destruct Hresult as (s & Hs).
    apply (postOnce_fulfils_success content imageUrl scheduledTime s r Hs).
  - exact Hresult.
  - destruct Hresult as (s & t & _ & -> & Hall).
    exists (message (toError t)). split; [reflexivity | exact Hall].
Qed.

(** X17: [createPostizPost] never fulfils with [success: false]: it returns a
    success after one to three requests, or rejects after exactly three
    with the wrapped error of the retry executor.  The branch of
    [schedulePin] for an unsuccessful response is therefore never taken. *)
Theorem createPostizPost_succeeds_or_throws (content : OptimizedContent)
    (imageUrl : jsstring) (scheduledTime : Z) (w : Posting.World Env) :
  exists result w',
    create content imageUrl scheduledTime w = (result, w')
    /\ Z.of_nat (fetchCalls w) < Z.of_nat (fetchCalls w')
       <= Z.of_nat (fetchCalls w) + 3
    /\ match result with
       | Fulfilled (Some r) => postSuccess r = true /\ postError r = None
       | Fulfilled None => False
       | Rejected reason =>
           exists last,
             reason = ThrownError
                        (newError (lit "createPostizPost failed after 3 attempts. Last error: "
                                   ++ last))
             /\ Z.of_nat (fetchCalls w') = Z.of_nat (fetchCalls w) + 3
       end.
Proof.
  destruct (createPostizPost_verdict content imageUrl scheduledTime w)
    as (result & w' & Hrun & Hcount & _ & _ & Hresult).
  exists result, w'. auto.
Qed.

(** How [schedulePin] settles, with the updates it asked for. *)
Lemma schedulePin_runs (this : PostizScheduler) (pinId : Z)
    (content : OptimizedContent) (imageUrl sourceUrl : jsstring)
    (w : Posting.World Env) :
  exists result w',
    schedule this pinId content imageUrl sourceUrl w = (result, w')
    /\ match result with
       | Fulfilled (Some r) =>
           if success r then
             exists t,
               scheduledTime r = Some t /\ error r = None
               /\ updates w'
                  = (pinId, MarkScheduled (postizId r) t) :: updates w
               /\ Z.of_nat (fetchCalls w) < Z.of_nat (fetchCalls w')
           else
             exists msg rest,
               error r = Some msg /\ scheduledTime r = None
               /\ updates w' = (pinId, MarkFailed msg) :: rest
       | Fulfilled None => False
       | Rejected reason =>
           exists msg rest e,
             updates w' = (pinId, MarkFailed msg) :: rest
             /\ fst (dbUpdatePin pinId (MarkFailed msg) e) = Rejected reason
       end.
Proof.
  destruct (findOptimalPostingTime_total Env db clock this (sched w))
    as (slot & s1 & Hslot).
  unfold schedulePin.
  cbv beta iota zeta delta [tryCatch bind liftScheduler].
  rewrite Hslot.
  match goal with
  | |- context [createPostizPost _ _ _ _ _ _ ?w1] =>
      destruct (createPostizPost_verdict content imageUrl slot w1)
        as (created & w2 & Hcreate & Hcount & Hupdates & _ & Hcreated)
  end.
  rewrite Hcreate. cbn [fetchCalls updates] in Hcount, Hupdates.
  destruct created as [[r |] | reason].
  - destruct Hcreated as [Hsuccess _]. rewrite Hsuccess. cbn [negb].
    cbv beta iota zeta delta [updateGeneratedPin ret].
    destruct (dbUpdatePin pinId (MarkScheduled (postId r) slot) (env (sched w2)))
      as [[[] | reason] e3] eqn:Hupdate.
    + eexists. eexists. split; [reflexivity |]. cbn [success].
      exists slot. cbn. rewrite Hupdates.
      repeat split; lia.
    + cbv beta iota zeta delta [Posting.consoleError].
      cbn [sched env lookupCount errorLog fetchCalls draws retryWarnings
           retrySleeps updates].
      destruct (dbUpdatePin pinId (MarkFailed (message (toError reason))) e3)
        as [[[] | reason'] e4] eqn:Hfailed.
      * eexists. eexists. split; [reflexivity |]. cbn [success].
        eexists. eexists. repeat split.
      * eexists. eexists. split; [reflexivity |].
        eexists. eexists. exists e3. split; [reflexivity |].
        rewrite Hfailed. reflexivity.
  - destruct Hcreated.
  - cbv beta iota zeta delta [Posting.consoleError updateGeneratedPin ret].
    cbn [sched env lookupCount errorLog fetchCalls draws retryWarnings
         retrySleeps updates].
    destruct (dbUpdatePin pinId (MarkFailed (message (toError reason)))
                (env (sched w2)))
      as [[[] | reason'] e4] eqn:Hfailed.
    + eexists. eexists. split; [reflexivity |]. cbn [success].
      eexists. eexists. repeat split.
    + eexists. eexists. split; [reflexivity |].
      eexists. eexists. exists (env (sched w2)). split; [reflexivity |].
      rewrite Hfailed. reflexivity.
Qed.

(** X18: [schedulePin] never settles without having asked the storage layer to
    record the outcome: a success follows a ['scheduled'] update carrying
    the slot and the Postiz id, a reported failure follows a ['failed']
    update carrying the error text it returns, and it rejects only with
    what that last ['failed'] update threw. *)
Theorem schedulePin_always_records (this : PostizScheduler) (pinId : Z)
    (content : OptimizedContent) (imageUrl sourceUrl : jsstring)
    (w : Posting.World Env) :
  exists result w',
    schedule this pinId content imageUrl sourceUrl w = (result, w')
    /\ match result with
       | Fulfilled (Some r) =>
           if success r then
             exists t,
               scheduledTime r = Some t /\ error r = None
               /\ updates w'
                  = (pinId, MarkScheduled (postizId r) t) :: updates w
               /\ Z.of_nat (fetchCalls w) < Z.of_nat (fetchCalls w')
           else
             exists msg rest,
               error r = Some msg /\ scheduledTime r = None
               /\ updates w' = (pinId, MarkFailed msg) :: rest
       | Fulfilled None => False
       | Rejected reason =>
           exists msg rest e,
             updates w' = (pinId, MarkFailed msg) :: rest
             /\ fst (dbUpdatePin pinId (MarkFailed msg) e) = Rejected reason
       end.
Proof. apply schedulePin_runs. Qed.

(** A request accepted at the first try. *)
Lemma createPostizPost_first_try (content : OptimizedContent)
    (imageUrl : jsstring) (scheduledTime : Z) (w : Posting.World Env)
    (r : PostResult) :
  fst (postOnce Env fetchPost content imageUrl scheduledTime (env (sched w)))
  = Fulfilled r ->
  create content imageUrl scheduledTime w
  = (Fulfilled (Some r),
     {| sched :=
          {| env := snd (postOnce Env fetchPost content imageUrl
                           scheduledTime (env (sched w)));
             lookupCount := lookupCount (sched w);
             errorLog := errorLog (sched w) |};
        fetchCalls := S (fetchCalls w); draws := draws w;
        retryWarnings := retryWarnings w; retrySleeps := retrySleeps w;
        updates := updates w |}).
Proof.
  intros Hfirst. unfold createPostizPost, liftRetry, withRetry, bind.
  rewrite (withRetryLoop_returns PostResult Env
             (postOnce Env fetchPost content imageUrl scheduledTime) random
             API_RETRY_CONFIG (lit "createPostizPost") _ 1 None _ r);
    [reflexivity | simpl; lia | exact Hfirst].
Qed.

(** X19: when Postiz accepts the post at once but the storage layer rejects
    the ['scheduled'] update, [schedulePin] marks the pin as failed and
    reports a failure carrying the storage error, although the post was
    created: one request was made and none is taken back. *)
Theorem schedulePin_fails_after_posting (this : PostizScheduler) (pinId : Z)
    (content : OptimizedContent) (imageUrl sourceUrl : jsstring)
    (w : Posting.World Env) (accepted : Response) (data : ResponseBody)
    (reason : Thrown) :
  ok accepted = true ->
  json accepted = Fulfilled data ->
  bodySuccess data = true ->
  (forall request e, fst (fetchPost request e) = Fulfilled accepted) ->
  (forall id t e,
      fst (dbUpdatePin pinId (MarkScheduled id t) e) = Rejected reason) ->
  (forall msg e, fst (dbUpdatePin pinId (MarkFailed msg) e) = Fulfilled tt) ->
  exists slot w',
    schedule this pinId content imageUrl sourceUrl w
    = (Fulfilled (Some {| success := false; scheduledTime := None;
                          postizId := None;
                          error := Some (message (toError reason)) |}), w')
    /\ fetchCalls w' = S (fetchCalls w)
    /\ updates w'
       = (pinId, MarkFailed (message (toError reason)))
         :: (pinId, MarkScheduled (bodyPostId data) slot) :: updates w.
Proof.
  intros Hok Hjson Hsuccess Hfetch Hscheduled Hfailed.
  destruct (findOptimalPostingTime_total Env db clock this (sched w))
    as (slot & s1 & Hslot).
  exists slot.
  unfold schedulePin.
  cbv beta iota zeta delta [tryCatch bind liftScheduler].
  rewrite Hslot.
  assert (Hpost : forall e,
             fst (postOnce Env fetchPost content imageUrl slot e)
             = Fulfilled {| postSuccess := true; postId := bodyPostId data;
                            postError := None |}).
  { intros e. unfold postOnce.
    match goal with
    | |- context [fetchPost ?request e] =>
        pose proof (Hfetch request e) as Hresponse;
        destruct (fetchPost request e) as [response e']
    end.
    cbn [fst] in Hresponse. subst response.
    rewrite Hok, Hjson, Hsuccess. reflexivity. }
  rewrite createPostizPost_first_try
    with (r := {| postSuccess := true; postId := bodyPostId data;
                  postError := None |}) by apply Hpost.
  cbn [postSuccess negb postId].
  cbv beta iota zeta delta [updateGeneratedPin ret Posting.consoleError].
  cbn [sched env lookupCount errorLog fetchCalls draws retryWarnings
       retrySleeps updates].
  match goal with
  | |- context [dbUpdatePin pinId (MarkScheduled ?id ?t) ?e] =>
      pose proof (Hscheduled id t e) as Hfirst;
      destruct (dbUpdatePin pinId (MarkScheduled id t) e) as [r1 e1]
  end.
  cbn [fst] in Hfirst. subst r1.
  match goal with
  | |- context [dbUpdatePin pinId (MarkFailed ?msg) ?e] =>
      pose proof (Hfailed msg e) as Hsecond;
      destruct (dbUpdatePin pinId (MarkFailed msg) e) as [r2 e2]
  end.
  cbn [fst] in Hsecond. subst r2.
  eexists. split; [reflexivity |]. split; reflexivity.
Qed.

End Poster.

End PostingFacts.

(** ** Runs on concrete inputs *)

Module ExtraExamples.

Import Retry RetrySpec RetryScenarios ExtraScenarios BackoffMore BackoffBand
  RetryMore.

Lemma noJitter_unitDraws : unitDraws noJitter.
Proof. intros n. unfold noJitter. split; [discriminate | reflexivity]. Qed.

Lemma delay_monotone_in_attempt_witness :
  delayFromDraw (1 # 2) 1 DEFAULT_RETRY_CONFIG
  <= delayFromDraw (1 # 2) 2 DEFAULT_RETRY_CONFIG.
Proof.
  apply (delay_monotone_in_attempt (1 # 2) 1 2 DEFAULT_RETRY_CONFIG).
  - lia.
  - vm_compute. discriminate.
  - vm_compute. discriminate.
  - split; vm_compute; [discriminate | reflexivity].
Defined.

Lemma no_attempt_allowed_witness :
  exists reason,
    withRetry Z nat failsOnce noJitter noAttemptConfig (lit "fetch")
      startWorld = (Rejected reason, startWorld).
Proof.
  destruct (no_attempt_allowed Z nat failsOnce noJitter noAttemptConfig
              (lit "fetch") startWorld) as [Hretry _].
  - simpl. lia.
  - exact Hretry.
Defined.

Lemma withConditionalRetry_stops_at_first_verdict_witness :
  exists w',
    withConditionalRetry Z nat failsOnce noJitter DEFAULT_RETRY_CONFIG
      (lit "fetch") startWorld = (Fulfilled (Some 42), w')
    /\ callCount w' = (callCount startWorld + 2)%nat
    /\ List.length (sleeps w') = (List.length (sleeps startWorld) + 1)%nat.
Proof.
  destruct (withConditionalRetry_stops_at_first_verdict Z nat failsOnce
              noJitter DEFAULT_RETRY_CONFIG (lit "fetch") startWorld 1)
    as [Hok _].
  - simpl. lia.
  - intros i Hi. assert (i = 0%nat) as -> by lia.
    eexists. split; [reflexivity | vm_compute; reflexivity].
  - apply (Hok 42). reflexivity.
Defined.

End ExtraExamples.

Module QueueExamples.

Import Retry PriorityQueue MessageQueue ExtraScenarios PriorityQueueFacts
  MessageQueueFacts.

Lemma twoEntries_reachable : reachable twoEntries.
Proof. unfold twoEntries. repeat constructor. Qed.

Lemma enqueue_behind_equal_priority_witness :
  enqueue 30 5 twoEntries
  = [ {| item := 10; priority := 5 |}; {| item := 30; priority := 5 |};
      {| item := 20; priority := 1 |} ]
  /\ size (enqueue 30 5 twoEntries) = size twoEntries + 1.
Proof.
  destruct (enqueue_behind_equal_priority Z 30 5 twoEntries
              twoEntries_reachable) as [Hshape Hsize].
  split; [rewrite Hshape; reflexivity | exact Hsize].
Defined.

Lemma dequeue_highest_priority_witness :
  dequeue twoEntries = (Some 10, [ {| item := 20; priority := 1 |} ])
  /\ peek twoEntries = Some 10.
Proof.
  pose proof (dequeue_highest_priority Z twoEntries twoEntries_reachable)
    as Hfront.
  destruct Hfront as (Hdequeue & Hpeek & _).
  split; [exact Hdequeue | exact Hpeek].
Defined.

Lemma requeueDelay_doubles_up_to_cap_witness :
  (1000 <= requeueDelay 2 <= 30000)%Q /\ (requeueDelay 2 == 4000)%Q.
Proof.
  destruct (requeueDelay_doubles_up_to_cap 2) as (Hrange & _ & Hexact & _).
  - lia.
  - split; [exact Hrange |]. apply Hexact. lia.
Defined.

Lemma retries_run_out_witness :
  retriesLeft urlMessage = 3
  /\ exists timer,
       timers (snd (processMessage unit unit nat failingHandlers true
                      urlMessage quietWorld))
       = timer :: timers quietWorld
       /\ retriesLeft (withDefaults (fixedIsoNow 0%nat) (retryMessage timer))
          = 2.
Proof.
  destruct (retries_run_out unit unit nat acceptingQueue fixedIsoNow
              failingHandlers true urlMessage quietWorld
              (urlHandlerFails (lit "https://example.com/a") 0)
              (ThrownError (newError (lit "scrape failed"))) 1%nat)
    as (_ & Hsome & _).
  - reflexivity.
  - reflexivity.
  - split; [reflexivity |].
    destruct Hsome as (timer & Htimers & Hsent); [vm_compute; reflexivity |].
    exists timer. split; [exact Htimers |].
    destruct (Hsent quietWorld) as (_ & _ & Hleft). exact Hleft.
Defined.

Lemma sendMessage_fills_defaults_witness :
  sendMessage unit unit nat acceptingQueue fixedIsoNow urlMessage quietWorld
  = call unit unit nat
      (acceptingQueue (withDefaults (fixedIsoNow 0%nat) urlMessage))
      quietWorld.
Proof.
  destruct (sendMessage_fills_defaults unit unit nat acceptingQueue
              fixedIsoNow urlMessage quietWorld) as [Hsend _].
  - vm_compute. discriminate.
  - exact Hsend.
Defined.

End QueueExamples.

Module AllocatorExamples.

Import Scheduler SchedulerSpec SearchSpec AllocatorMore SchedulerExamples.

Lemma findOptimalPostingTime_future_slot_witness :
  exists t w',
    findOptimalPostingTime Z dbFailing frozenClock defaultScheduler
      (worldAt (atTime 19723 10 0)) = (Fulfilled (Some t), w')
    /\ isOptimalSlot defaultScheduler t
    /\ atTime 19723 10 0 < t
    /\ Z.of_nat (lookupCount (worldAt (atTime 19723 10 0))) + 1
       <= Z.of_nat (lookupCount w')
       <= Z.of_nat (lookupCount (worldAt (atTime 19723 10 0))) + 50.
Proof.
  apply (findOptimalPostingTime_future_slot Z dbFailing frozenClock
           defaultScheduler (worldAt (atTime 19723 10 0))).
  exact default_hours_in_range.
Defined.

Lemma findOptimalPostingTime_first_free_witness :
  findOptimalPostingTime Z (dbReturning (pinsAt [atTime 19723 12 5]))
    frozenClock defaultScheduler (worldAt (atTime 19723 10 0))
  = (Fulfilled (Some (atTime 19723 15 0)),
     {| env := atTime 19723 10 0; lookupCount := 2; errorLog := [] |}).
Proof.
  apply (findOptimalPostingTime_first_free Z
           (dbReturning (pinsAt [atTime 19723 12 5])) frozenClock
           defaultScheduler (pinsAt [atTime 19723 12 5])
           (worldAt (atTime 19723 10 0)) 1).
  - intros limit e. reflexivity.
  - lia.
  - intros j Hj. assert (j = 0%nat) as -> by lia. vm_compute. reflexivity.
  - vm_compute. reflexivity.
Defined.

End AllocatorExamples.

Module PostingExamples.

Import Retry RetryScenarios Scheduler SchedulerSpec Posting PostingScenarios
  PostingFacts.

Lemma schedulePin_fails_after_posting_witness :
  exists slot w',
    schedulePin Z (dbReturning []) frozenClock postizAccepts refusesScheduled
      noJitter defaultScheduler 7 samplePost (lit "https://img/1.png")
      (lit "https://example.com/a") (postingWorldAt (atTime 19723 10 0))
    = (Fulfilled (Some {| success := false; scheduledTime := None;
                          postizId := None;
                          error := Some (lit "D1_ERROR: no such table") |}),
       w')
    /\ fetchCalls w' = 1%nat
    /\ updates w'
       = [ (7, MarkFailed (lit "D1_ERROR: no such table"));
           (7, MarkScheduled (Some (lit "post-1")) slot) ].
Proof.
  apply (schedulePin_fails_after_posting Z (dbReturning []) frozenClock
           postizAccepts refusesScheduled noJitter defaultScheduler 7
           samplePost (lit "https://img/1.png") (lit "https://example.com/a")
           (postingWorldAt (atTime 19723 10 0)) acceptedResponse acceptedBody
           storageDown).
  - reflexivity.
  - reflexivity.
  - reflexivity.
  - intros request e. reflexivity.
  - intros id t e. reflexivity.
  - intros msg e. reflexivity.
Defined.

End PostingExamples.

(** ** Backoff delays within the exactly representable range *)

Module BackoffBounds.

Import Retry RetrySpec RetryScenarios MoreScenarios BackoffFacts.






End BackoffBounds.

(** ** Exhaustion of the two executors *)

Module RetryExhaustion.

Import Retry RetrySpec BackoffFacts BackoffBand RetryFacts RetryMore.

Lemma exhaustedMessage_longer (config : RetryConfig) (context : jsstring)
    (lastError : Error) :
  (List.length (message lastError)
   < List.length (exhaustedMessage config context lastError))%nat.
Proof.
  unfold exhaustedMessage. rewrite !length_app.
  assert (0 < List.length (lit " failed after "))%nat
    by (vm_compute; lia).
  lia.
Qed.

Section Executor.

Variable T : Type.
Variable St : Type.
Variable operation : St -> Outcome T * St.
Variable random : nat -> Q.
Variable config : RetryConfig.
Variable context : jsstring.

Local Abbreviation outcome := (outcomeAt T St operation).

(** C6: the two executors surface exhaustion differently.  When the
    operation fails on all [maxAttempts] attempts, [withRetry] throws one
    new error whose message names the label, the attempt count and the last
    underlying message, whatever the errors are.  Its sibling
    [withConditionalRetry], on the same failures when those before the last
    are retryable, throws the last underlying error itself after the same
    number of invocations; that error is never the wrapped one. *)
Theorem exhausted_retry_errors_differ (w : World St) (last : Thrown) :
  1 <= maxAttempts config ->
  (forall i, Z.of_nat i < maxAttempts config - 1 ->
             exists t, outcome i (opState w) = Rejected t) ->
  outcome (Z.to_nat (maxAttempts config - 1)) (opState w) = Rejected last ->
  (exists w',
     withRetry T St operation random config context w
     = (Rejected (ThrownError
                    (newError (exhaustedMessage config context (toError last)))),
        w')
     /\ Z.of_nat (callCount w') = Z.of_nat (callCount w) + maxAttempts config)
  /\ ((forall i t, Z.of_nat i < maxAttempts config - 1 ->
                   outcome i (opState w) = Rejected t ->
                   isRetryableError (toError t) = true) ->
      exists w',
        withConditionalRetry T St operation random config context w
        = (Rejected (ThrownError (toError last)), w')
        /\ Z.of_nat (callCount w') = Z.of_nat (callCount w) + maxAttempts config)
  /\ toError last <> newError (exhaustedMessage config context (toError last)).
Proof.
  intros Hmax Hfail Hlast. split; [| split].
  - destruct (withRetryLoop_exhausts T St operation random config context
                (Z.to_nat (maxAttempts config - 1))
                (S (Z.to_nat (maxAttempts config))) 1 None w last)
      as (w' & Hrun & Hc & _); try assumption; try lia.
    + intros i Hi. apply Hfail. lia.
    + exists w'. unfold withRetry, bind. rewrite Hrun.
      split; [reflexivity | lia].
  - intros Hretry.
    destruct (withConditionalRetryLoop_exhausts T St operation random config
                context (Z.to_nat (maxAttempts config - 1))
                (S (Z.to_nat (maxAttempts config))) 1 None w last)
      as (w' & Hrun & Hc & _); try assumption; try lia.
    + intros i Hi. destruct (Hfail i) as (t & Ht); [lia |].
      exists t. split; [exact Ht |]. apply (Hretry i); [lia | exact Ht].
    + exists w'. unfold withConditionalRetry, bind. rewrite Hrun.
      split; [reflexivity | lia].
  - intros Heq.
    pose proof (exhaustedMessage_longer config context (toError last)) as Hlen.
    rewrite Heq in Hlen at 1. simpl in Hlen. lia.
Qed.

(** X4: whatever the operation does, [withRetry] settles after at least one
    and at most [maxAttempts] invocations; it sleeps once between two
    invocations and never after the last.  With a positive [baseDelay] and a
    [maxDelay] of a whole number of milliseconds below 2^50 every sleep is
    between 0 and [maxDelay * 1.25] rounded. *)
Theorem withRetry_budget (w : World St) (M : Z) :
  1 <= maxAttempts config ->
  unitDraws random ->
  (1 <= backoffFactor config)%Q ->
  (0 < baseDelay config)%Q ->
  (maxDelay config == inject_Z M)%Q ->
  0 <= M < 2 ^ 50 ->
  exists result w' new,
    withRetry T St operation random config context w = (result, w')
    /\ result <> Fulfilled None
    /\ sleeps w' = new ++ sleeps w
    /\ callCount w' = (callCount w + S (List.length new))%nat
    /\ Z.of_nat (S (List.length new)) <= maxAttempts config
    /\ Forall (sleepInBounds config) new.
Proof.
  intros Hmax Hdraws Hf Hb HM [HM0 _].
  assert (Hm : (0 <= maxDelay config)%Q).
  { rewrite HM. change 0%Q with (inject_Z 0). rewrite <- Zle_Qle. exact HM0. }
  assert (Hb' : (0 <= baseDelay config)%Q) by lra.
  destruct (withRetryLoop_budget T St operation random config context
              (S (Z.to_nat (maxAttempts config))) 1 None w)
    as (exit & w' & new & Hrun & Hs & Hc & Hn & Hall);
    try assumption; try lia.
  unfold withRetry, bind. rewrite Hrun.
  destruct exit as [v | [e |]]; eexists; exists w', new;
    (split; [reflexivity |]);
    (split; [discriminate |]); repeat split; try assumption; lia.
Qed.

End Executor.

End RetryExhaustion.

Module RetryExhaustionExamples.

Import Retry RetrySpec RetryScenarios RetryExhaustion.

Lemma exhausted_retry_errors_differ_witness :
  (exists w',
     withRetry Z nat (alwaysFails (lit "network down")) noJitter
       DEFAULT_RETRY_CONFIG (lit "fetch") startWorld
     = (Rejected (ThrownError
                    (newError
                       (lit "fetch failed after 3 attempts. Last error: network down"))),
        w')
     /\ Z.of_nat (callCount w') = 3)
  /\ (exists w',
        withConditionalRetry Z nat (alwaysFails (lit "network down")) noJitter
          DEFAULT_RETRY_CONFIG (lit "fetch") startWorld
        = (Rejected (ThrownError (newError (lit "network down"))), w')
        /\ Z.of_nat (callCount w') = 3).
Proof.
  destruct (exhausted_retry_errors_differ Z nat
              (alwaysFails (lit "network down")) noJitter
              DEFAULT_RETRY_CONFIG (lit "fetch") startWorld
              (ThrownError (newError (lit "network down"))))
    as (Hwrap & Hbare & _).
  - simpl. lia.
  - intros i _. eexists. reflexivity.
  - reflexivity.
  - split.
    + exact Hwrap.
    + apply Hbare. intros i t _ Ht.
      assert (Hall : outcomeAt Z nat (alwaysFails (lit "network down")) i
                       (opState startWorld)
                     = Rejected (ThrownError (newError (lit "network down"))))
        by reflexivity.
      rewrite Hall in Ht. injection Ht as <-. vm_compute. reflexivity.
Defined.

Lemma withRetry_budget_witness :
  exists result w' new,
    withRetry Z nat (alwaysFails (lit "boom")) noJitter DEFAULT_RETRY_CONFIG
      (lit "fetch") startWorld = (result, w')
    /\ result <> Fulfilled None
    /\ sleeps w' = new ++ sleeps startWorld
    /\ callCount w' = (callCount startWorld + S (List.length new))%nat
    /\ Z.of_nat (S (List.length new)) <= maxAttempts DEFAULT_RETRY_CONFIG
    /\ Forall (sleepInBounds DEFAULT_RETRY_CONFIG) new.
Proof.
  apply (withRetry_budget Z nat (alwaysFails (lit "boom")) noJitter
           DEFAULT_RETRY_CONFIG (lit "fetch") startWorld 30000).
  - simpl. lia.
  - exact ExtraExamples.noJitter_unitDraws.
  - vm_compute. discriminate.
  - vm_compute. reflexivity.
  - vm_compute. reflexivity.
  - lia.
Defined.

End RetryExhaustionExamples.

(** ** Exhaustion of the slot search *)

Module ExhaustionFacts.

Import Scheduler SchedulerSpec SearchSpec SearchRounds DateFacts
  NextOptimalTimeFacts AllocatorFacts AllocatorMore.

Section Allocator.

Variable Env : Type.
Variable db : Z -> Env -> Outcome (list GeneratedPin) * Env.
Variable clock : Env -> Z.

Local Abbreviation available := (isTimeSlotAvailable Env db).
Local Abbreviation search := (searchLoop Env db).
Local Abbreviation unavailable := (roundUnavailable Env db).

(** A round that finds its candidate unavailable costs one lookup and
    leaves the environment the lookup left. *)
Lemma unavailable_round (this : PostizScheduler) (target : Z)
    (w : World Env) :
  unavailable this target (env w) 0%nat = true ->
  exists w1,
    available this target w = (Fulfilled false, w1)
    /\ env w1 = snd (db 100 (env w))
    /\ lookupCount w1 = S (lookupCount w).
Proof.
  unfold roundUnavailable. cbn [envAfterLookups candidateFrom].
  intros Hround. rewrite isTimeSlotAvailable_runs.
  destruct (db 100 (env w)) as [[pins | reason] e']; cbn [fst snd] in *.
  - unfold isFree in Hround. rewrite negb_involutive in Hround.
    rewrite Hround. eexists. split; [reflexivity |]. split; reflexivity.
  - eexists. split; [reflexivity |]. split; reflexivity.
Qed.

(** [n] unavailable rounds up to the bound leave the loop with its test
    false after [n] lookups. *)
Lemma searchLoop_runs_out (this : PostizScheduler) (n : nat) :
  forall (fuel : nat) (attempts target : Z) (w : World Env),
    (n < fuel)%nat ->
    attempts + Z.of_nat n = 50 ->
    (forall i, (i < n)%nat -> unavailable this target (env w) i = true) ->
    exists w',
      search this fuel attempts target w = (Fulfilled (Some None), w')
      /\ lookupCount w' = (lookupCount w + n)%nat.
Proof.
  induction n as [| n IH]; intros fuel attempts target w Hfuel Hsum Hrounds.
  - destruct fuel as [| fuel]; [lia |].
    cbn [searchLoop].
    assert (Htest : (attempts <? 50) = false) by (apply Z.ltb_ge; lia).
    rewrite Htest. exists w. split; [reflexivity | lia].
  - destruct fuel as [| fuel]; [lia |].
    destruct (unavailable_round this target w) as (w1 & Hno & He & Hc).
    { apply Hrounds. lia. }
    rewrite (searchLoop_unavailable Env db this fuel attempts target w w1);
      [| lia | exact Hno].
    destruct (IH fuel (attempts + 1)
                (getNextOptimalTime this (addHours target 1)) w1)
      as (w' & Hrun & Hc'); [lia | lia | |].
    + intros i Hi. rewrite He.
      specialize (Hrounds (S i) ltac:(lia)).
      unfold roundUnavailable in *.
      cbn [envAfterLookups candidateFrom] in Hrounds. exact Hrounds.
    + exists w'. split; [exact Hrun | lia].
Qed.

Local Abbreviation fallback this w :=
  (setHours0 (addDays (clock (env w)) 1) (firstOptimalHour this)).

Lemma findOptimalPostingTime_runs_out (this : PostizScheduler)
    (w : World Env) :
  (forall i, (i < 50)%nat ->
             unavailable this (getNextOptimalTime this (clock (env w)))
               (env w) i = true) ->
  exists w',
    findOptimalPostingTime Env db clock this w
    = (Fulfilled (Some (fallback this w)), w')
    /\ lookupCount w' = (lookupCount w + 50)%nat.
Proof.
  intros Hrounds.
  destruct (searchLoop_runs_out this 50 51 0
              (getNextOptimalTime this (clock (env w))) w)
    as (w' & Hrun & Hc); [lia | lia | exact Hrounds |].
  exists w'. unfold findOptimalPostingTime, bind, newDate.
  fold (searchLoop Env db). rewrite Hrun. split; [reflexivity | exact Hc].
Qed.

(** C4: [findOptimalPostingTime] always returns an instant and never
    throws.  When each of its 50 rounds finds its candidate unavailable,
    because the lookup of that round rejects or answers with a pin within
    one hour of the candidate, it makes exactly 50 lookups and returns
    tomorrow at the first optimal hour.  That is so when every lookup
    fails, and when the lookups keep answering with pins that conflict with
    each of the first 50 candidates; whether a pin conflicts with the
    fallback instant itself is never looked at. *)
Theorem findOptimalPostingTime_always_returns (this : PostizScheduler)
    (w : World Env) :
  (exists t w',
      findOptimalPostingTime Env db clock this w = (Fulfilled (Some t), w'))
  /\ ((forall i, (i < 50)%nat ->
                 unavailable this (getNextOptimalTime this (clock (env w)))
                   (env w) i = true) ->
      exists w',
        findOptimalPostingTime Env db clock this w
        = (Fulfilled (Some (fallback this w)), w')
        /\ lookupCount w' = (lookupCount w + 50)%nat)
  /\ ((forall limit e, exists reason e', db limit e = (Rejected reason, e')) ->
      exists w',
        findOptimalPostingTime Env db clock this w
        = (Fulfilled (Some (fallback this w)), w')
        /\ lookupCount w' = (lookupCount w + 50)%nat)
  /\ (forall pins,
        (forall limit e, db limit e = (Fulfilled pins, e)) ->
        (forall i, (i < 50)%nat ->
                   isFree pins (candidate this (clock (env w)) i) = false) ->
        exists w',
          findOptimalPostingTime Env db clock this w
          = (Fulfilled (Some (fallback this w)), w')
          /\ lookupCount w' = (lookupCount w + 50)%nat).
Proof.
  split; [| split; [| split]].
  - apply findOptimalPostingTime_total.
  - apply findOptimalPostingTime_runs_out.
  - intros Hfail. apply findOptimalPostingTime_runs_out.
    intros i _. unfold roundUnavailable.
    destruct (Hfail 100 (envAfterLookups Env db i (env w)))
      as (reason & e' & Hdb).
    rewrite Hdb. reflexivity.
  - intros pins Hsteady Hbusy. apply findOptimalPostingTime_runs_out.
    intros i Hi. unfold roundUnavailable.
    assert (Henv : forall n e, envAfterLookups Env db n e = e).
    { induction n as [| n IHn]; intros e; [reflexivity |].
      cbn [envAfterLookups]. rewrite Hsteady. cbn [snd]. apply IHn. }
    rewrite Henv, Hsteady. cbn [fst].
    specialize (Hbusy i Hi). unfold candidate in Hbusy.
    rewrite Hbusy. reflexivity.
Qed.

End Allocator.

End ExhaustionFacts.

Module ExhaustionExamples.

Import Scheduler SchedulerSpec SearchSpec SearchRounds SearchScenarios
  ExhaustionFacts.

Lemma crowded_candidates (i : nat) :
  (i < 50)%nat ->
  isFree (crowdedPins (atTime 19723 10 0))
    (candidate defaultScheduler (atTime 19723 10 0) i) = false.
Proof.
  intros Hi.
  assert (Hall : forallb
                   (fun i => negb (isFree (crowdedPins (atTime 19723 10 0))
                                     (candidate defaultScheduler
                                        (atTime 19723 10 0) i)))
                   (seq 0 50) = true)
    by (vm_compute; reflexivity).
  rewrite forallb_forall in Hall.
  specialize (Hall i ltac:(apply in_seq; lia)).
  apply negb_true_iff in Hall. exact Hall.
Qed.

Lemma findOptimalPostingTime_always_returns_witness :
  (exists w',
      findOptimalPostingTime Z (dbReturning (crowdedPins (atTime 19723 10 0)))
        frozenClock defaultScheduler (worldAt (atTime 19723 10 0))
      = (Fulfilled (Some (atTime 19724 9 0)), w')
      /\ lookupCount w' = 50%nat)
  /\ isFree (crowdedPins (atTime 19723 10 0)) (atTime 19724 9 0) = false.
Proof.
  split.
  - destruct (findOptimalPostingTime_always_returns Z
                (dbReturning (crowdedPins (atTime 19723 10 0))) frozenClock
                defaultScheduler (worldAt (atTime 19723 10 0)))
      as (_ & _ & _ & Hbusy).
    apply (Hbusy (crowdedPins (atTime 19723 10 0))).
    + intros limit e. reflexivity.
    + exact crowded_candidates.
  - vm_compute. reflexivity.
Defined.

End ExhaustionExamples.

(** ** The candidate after a conflict *)

Module ConflictFacts.

Import Scheduler SchedulerSpec SearchSpec SearchScenarios DateFacts
  NextOptimalTimeFacts AllocatorFacts AllocatorMore.

(** For ascending hours no optimal slot lies between [from] and
    [getNextOptimalTime from]. *)
Lemma getNextOptimalTime_least (this : PostizScheduler) (from : Z) :
  (forall h, In h (optimalHours this) -> 0 <= h <= 23) ->
  Sorted Z.le (optimalHours this) ->
  forall s, isOptimalSlot this s -> from < s ->
            getNextOptimalTime this from <= s.
Proof.
  intros Hrange Hsorted s Hs Hlater.
  destruct (startOfDay_multiple from) as [k Hk].
  pose proof (getHours_range from) as Hh.
  pose proof (mod_hour_range from) as Hm.
  pose proof (instant_split from) as Hsplit. rewrite Hk in Hsplit.
  destruct (startOfDay_multiple s) as [ks Hks].
  pose proof (slot_parts this s Hs) as Hp. rewrite Hks in Hp.
  destruct Hs as [_ Hin]. pose proof (Hrange _ Hin) as Hhs.
  set (hs := getHours s) in *.
  assert (Hr : getNextOptimalTime this from
               = match find (fun hour => hour >? getHours from)
                              (optimalHours this) with
                 | Some hour => k * msPerDay + hour * msPerHour
                 | None => (k + 1) * msPerDay
                           + firstOptimalHour this * msPerHour
                 end).
  { rewrite Hsplit at 1. apply getNextOptimalTime_parts; assumption. }
  rewrite Hr. clear Hr.
  destruct (find (fun hour => hour >? getHours from) (optimalHours this))
    as [x |] eqn:Hfind.
  - pose proof (find_above_least _ _ _ Hsorted Hfind) as Hleast.
    apply find_some in Hfind. destruct Hfind as [Hxin Hx].
    pose proof (Hrange x Hxin) as Hxr.
    assert (Hcases : ks < k \/ ks = k \/ k < ks) by lia.
    destruct Hcases as [Hlt | [Heq | Hgt]].
    + unfold msPerDay, msPerHour in *. lia.
    + subst ks.
      assert (Habove : getHours from < hs)
        by (unfold msPerDay, msPerHour in *; lia).
      pose proof (Hleast hs Hin Habove). unfold msPerHour in *. lia.
    + unfold msPerDay, msPerHour in *. lia.
  - pose proof (find_above_none _ _ Hfind hs Hin) as Hle.
    pose proof (sorted_head_least _ _ Hsorted hs Hin) as Hmin.
    assert (Hcases : ks <= k \/ k < ks) by lia.
    destruct Hcases as [Hlt | Hgt]; unfold msPerDay, msPerHour in *; lia.
Qed.

Lemma hourly_hours_in_range :
  forall h, In h (optimalHours hourlyScheduler) -> 0 <= h <= 23.
Proof.
  intros h Hin. simpl in Hin.
  repeat (destruct Hin as [<- | Hin]; [lia |]). destruct Hin.
Qed.

Lemma hourly_hours_sorted : Sorted Z.le (optimalHours hourlyScheduler).
Proof.
  unfold optimalHours. simpl.
  repeat (constructor; try lia).
Qed.

Lemma hourly_slot (day hour : Z) :
  0 <= day -> In hour (optimalHours hourlyScheduler) ->
  isOptimalSlot hourlyScheduler (atTime day hour 0).
Proof.
  intros Hday Hin.
  pose proof (hourly_hours_in_range hour Hin) as Hr.
  destruct (compose_parts day hour 0) as (_ & Hhour & Hzero);
    [lia | unfold msPerHour; lia |].
  unfold atTime. change (0 * 60000) with 0.
  split; [exact Hzero | rewrite Hhour; exact Hin].
Qed.

(** C3, as the code has it: the slot is unavailable exactly when some
    scheduled instant lies within one hour of the candidate, both ends
    included, whatever [minGapMinutes] is.  An unavailable candidate is
    replaced by [getNextOptimalTime] of the candidate plus one hour: for
    ascending hours the earliest optimal slot more than one hour after the
    candidate, which is the next optimal slot after the candidate unless an
    optimal slot lies exactly one hour after it.  With the default hours,
    candidate 12:00 and one pin at 12:05 the allocator returns 15:00 of the
    same day. *)
Theorem conflict_window_one_hour (Env : Type)
    (db : Z -> Env -> Outcome (list GeneratedPin) * Env) (clock : Env -> Z)
    (this : PostizScheduler) (target : Z) (w : World Env)
    (pins : list GeneratedPin) (e' : Env) :
  db 100 (env w) = (Fulfilled pins, e') ->
  (exists b,
      fst (isTimeSlotAvailable Env db this target w) = Fulfilled b
      /\ (b = false <->
          exists pin t, In pin pins /\ scheduled_for pin = Some t
                        /\ target - msPerHour <= t <= target + msPerHour))
  /\ (forall gap,
        isTimeSlotAvailable Env db (withMinGap this gap) target w
        = isTimeSlotAvailable Env db this target w)
  /\ (forall fuel attempts w',
        attempts < 50 ->
        isTimeSlotAvailable Env db this target w = (Fulfilled false, w') ->
        searchLoop Env db this (S fuel) attempts target w
        = searchLoop Env db this fuel (attempts + 1)
            (getNextOptimalTime this (addHours target 1)) w')
  /\ ((forall h, In h (optimalHours this) -> 0 <= h <= 23) ->
      Sorted Z.le (optimalHours this) ->
      isOptimalSlot this (getNextOptimalTime this (addHours target 1))
      /\ target + msPerHour < getNextOptimalTime this (addHours target 1)
      /\ (forall s, isOptimalSlot this s -> target + msPerHour < s ->
                    getNextOptimalTime this (addHours target 1) <= s)
      /\ (target mod msPerHour = 0 ->
          ~ isOptimalSlot this (target + msPerHour) ->
          forall s, isOptimalSlot this s -> target < s ->
                    getNextOptimalTime this (addHours target 1) <= s))
  /\ (forall day,
        fst (findOptimalPostingTime Z (dbReturning (pinsAt [atTime day 12 5]))
               frozenClock defaultScheduler (worldAt (atTime day 10 0)))
        = Fulfilled (Some (atTime day 15 0))).
Proof.
  intros Hdb. split; [| split; [| split; [| split]]].
  - rewrite isTimeSlotAvailable_runs, Hdb. eexists. split; [reflexivity |].
    rewrite negb_false_iff, existsb_exists. split.
    + intros (pin & Hin & Hgap). apply inGap_spec in Hgap.
      destruct Hgap as (t & Ht & Hwin). exists pin, t. auto.
    + intros (pin & t & Hin & Ht & Hwin). exists pin.
      split; [exact Hin |]. apply inGap_spec. exists t. auto.
  - intros gap. reflexivity.
  - intros fuel attempts w' Hlt Hno.
    apply searchLoop_unavailable; assumption.
  - intros Hrange Hsorted.
    assert (Hplus : addHours target 1 = target + msPerHour)
      by (unfold addHours; lia).
    rewrite Hplus.
    destruct (getNextOptimalTime_slot_later this (target + msPerHour) Hrange)
      as [Hslot Hlater].
    pose proof (getNextOptimalTime_least this (target + msPerHour)
                  Hrange Hsorted) as Hleast.
    split; [exact Hslot |]. split; [exact Hlater |].
    split; [exact Hleast |].
    intros Hzero Hnot s Hs Hafter. apply Hleast; [exact Hs |].
    assert (Hne : s <> target + msPerHour)
      by (intros ->; apply Hnot; exact Hs).
    destruct Hs as [Hs0 _].
    apply Z.mod_divide in Hs0; [| unfold msPerHour; lia].
    apply Z.mod_divide in Hzero; [| unfold msPerHour; lia].
    destruct Hs0 as [a ->]. destruct Hzero as [b ->].
    unfold msPerHour in *. lia.
  - exact skips_conflicting_noon.
Qed.

End ConflictFacts.

Module ConflictExamples.

Import Scheduler SchedulerSpec SearchSpec SearchScenarios DateFacts
  NextOptimalTimeFacts ConflictFacts.

Lemma conflict_window_one_hour_witness :
  (exists b,
      fst (isTimeSlotAvailable Z (dbReturning (pinsAt [atTime 19723 12 5]))
             defaultScheduler (atTime 19723 12 0)
             (worldAt (atTime 19723 10 0)))
      = Fulfilled b
      /\ (b = false <->
          exists pin t,
            In pin (pinsAt [atTime 19723 12 5]) /\ scheduled_for pin = Some t
            /\ atTime 19723 12 0 - msPerHour <= t
               <= atTime 19723 12 0 + msPerHour))
  /\ isOptimalSlot defaultScheduler
       (getNextOptimalTime defaultScheduler (addHours (atTime 19723 12 0) 1))
  /\ atTime 19723 12 0 + msPerHour
     < getNextOptimalTime defaultScheduler (addHours (atTime 19723 12 0) 1)
  /\ getNextOptimalTime defaultScheduler (addHours (atTime 19723 12 0) 1)
     = atTime 19723 15 0.
Proof.
  destruct (conflict_window_one_hour Z
              (dbReturning (pinsAt [atTime 19723 12 5])) frozenClock
              defaultScheduler (atTime 19723 12 0)
              (worldAt (atTime 19723 10 0)) (pinsAt [atTime 19723 12 5])
              (atTime 19723 10 0) eq_refl) as (Hwindow & _ & _ & Hnext & _).
  destruct (Hnext SchedulerExamples.default_hours_in_range
              SchedulerExamples.default_hours_sorted)
    as (Hslot & Hlater & _).
  split; [exact Hwindow |]. split; [exact Hslot |].
  split; [exact Hlater | vm_compute; reflexivity].
Defined.

(** C3 as stated fails when an optimal hour follows another by exactly one
    hour: with the hours 9, 10, 11 a conflict at 09:00 moves the search to
    11:00, past the optimal slot at 10:00.  At 08:00 with one pin at 08:30
    the allocator returns 11:00 although no pin is within one hour of
    10:00. *)
Lemma conflict_skips_adjacent_hour :
  ~ (forall (this : PostizScheduler) (target : Z),
        (forall h, In h (optimalHours this) -> 0 <= h <= 23) ->
        Sorted Z.le (optimalHours this) ->
        isOptimalSlot this target ->
        forall s, isOptimalSlot this s -> target < s ->
                  getNextOptimalTime this (addHours target 1) <= s)
  /\ fst (findOptimalPostingTime Z (dbReturning (pinsAt [atTime 19723 8 30]))
            frozenClock hourlyScheduler (worldAt (atTime 19723 8 0)))
     = Fulfilled (Some (atTime 19723 11 0))
  /\ isFree (pinsAt [atTime 19723 8 30]) (atTime 19723 10 0) = true.
Proof.
  split; [| split].
  - intros Hclaim.
    assert (H9 : isOptimalSlot hourlyScheduler (atTime 19723 9 0))
      by (apply hourly_slot; [lia | simpl; auto]).
    assert (H10 : isOptimalSlot hourlyScheduler (atTime 19723 10 0))
      by (apply hourly_slot; [lia | simpl; auto]).
    specialize (Hclaim hourlyScheduler (atTime 19723 9 0)
                  hourly_hours_in_range hourly_hours_sorted H9
                  (atTime 19723 10 0) H10 ltac:(vm_compute; reflexivity)).
    revert Hclaim. vm_compute. intros H. apply H. reflexivity.
  - vm_compute. reflexivity.
  - vm_compute. reflexivity.
Qed.

End ConflictExamples.

(** ** The average gap in double precision *)

Module DoubleStatsFacts.

Import Scheduler SchedulerSpec Double DoubleSpec DateFacts AllocatorFacts
  StatsFacts.






Section Allocator.

Variable Env : Type.
Variable db : Z -> Env -> Outcome (list GeneratedPin) * Env.
Variable clock : Env -> Z.


End Allocator.


End DoubleStatsFacts.
